(** * Jogo das Cadeiras (musical chairs): a model of [src/main.cpp]

    The program is one coordinator thread and [NUM_JOGADORES] player threads
    that share a counting semaphore (the chairs), two atomic flags and a game
    object protected by a mutex.  This file embeds

    - the C++ [int] arithmetic and [std::counting_semaphore],
    - the methods of [JogoDasCadeiras], [Jogador] and [Coordenador] as
      functions on the shared state,
    - the threads as an interleaving step function, one step per access to
      shared memory,

    and then states and proves the properties of the specification. *)

From stdpp Require Import base list.
From Stdlib Require Import ZArith Lia.
From Equations Require Import Equations.

Open Scope Z_scope.

(** ** C++ [int] *)

Definition INT_MIN : Z := - 2 ^ 31.
Definition INT_MAX : Z := 2 ^ 31 - 1.

(** Two's complement wrap-around of a 32-bit signed result.  C++ leaves signed
    overflow undefined; the theorems that depend on a result being exact carry
    the range of the operand as a hypothesis. *)
Definition int_wrap (z : Z) : Z := (z + 2 ^ 31) mod 2 ^ 32 - 2 ^ 31.

Definition int_range (z : Z) : Prop := INT_MIN <= z <= INT_MAX.

(** ** Global constants and [std::counting_semaphore] *)

(** [constexpr int NUM_JOGADORES = 4;] *)
Definition NUM_JOGADORES : Z := 4.

(** The semaphore is its internal counter.  The operations follow the comment
    block of the source and the C++ standard: [try_acquire] decrements a
    positive counter and reports whether it did, and never waits; [release]
    adds [update] to the counter. *)
Record counting_semaphore := MkSem { counter : Z }.

(** [counting_semaphore<NUM_JOGADORES>::max()] *)
Definition sem_max : Z := NUM_JOGADORES.

Definition try_acquire (s : counting_semaphore) : bool * counting_semaphore :=
  if 0 <? counter s then (true, MkSem (counter s - 1)) else (false, s).

Definition release (update : Z) (s : counting_semaphore) : counting_semaphore :=
  MkSem (counter s + update).

(** The precondition the standard puts on [release(update)]. *)
Definition release_pre (update : Z) (s : counting_semaphore) : Prop :=
  0 <= update <= sem_max - counter s.

(** A semaphore a program can hold: the counter is never negative. *)
Definition sem_ok (s : counting_semaphore) : Prop := 0 <= counter s.

(** ** Shared state *)

(** The lines the program writes to [cout], in order. *)
Inductive Mensagem :=
| MsgRodada (jogadores cadeiras_anunciadas : Z)   (* line 64 *)
| MsgMusicaParou                                  (* line 73 *)
| MsgEliminado (jogador_id : Z)                   (* line 84 *)
| MsgEstado (jogadores cadeiras_disponiveis : Z)  (* line 89 *)
| MsgSentou (jogador_id : Z)                      (* line 107 *)
| MsgVencedor.                                    (* line 165 *)

(** The fields of [class JogoDasCadeiras]; [jogo_mutex] is part of the thread
    model below. *)
Record JogoDasCadeiras := MkJogo {
  num_jogadores : Z;
  cadeiras : Z;
  jogadores_restantes : Z
}.

(** The game object together with the global variables of the program. *)
Record Mundo := MkMundo {
  jogo : JogoDasCadeiras;
  cadeira_sem : counting_semaphore;
  musica_parada : bool;
  jogo_ativo : bool;
  saida : list Mensagem
}.

Definition com_jogo (g : JogoDasCadeiras) (w : Mundo) : Mundo :=
  MkMundo g (cadeira_sem w) (musica_parada w) (jogo_ativo w) (saida w).
Definition com_sem (s : counting_semaphore) (w : Mundo) : Mundo :=
  MkMundo (jogo w) s (musica_parada w) (jogo_ativo w) (saida w).
Definition com_musica_parada (b : bool) (w : Mundo) : Mundo :=
  MkMundo (jogo w) (cadeira_sem w) b (jogo_ativo w) (saida w).
Definition com_jogo_ativo (b : bool) (w : Mundo) : Mundo :=
  MkMundo (jogo w) (cadeira_sem w) (musica_parada w) b (saida w).
Definition cout (m : Mensagem) (w : Mundo) : Mundo :=
  MkMundo (jogo w) (cadeira_sem w) (musica_parada w) (jogo_ativo w) (saida w ++ [m]).

(** ** [class JogoDasCadeiras] *)

(** The constructor, lines 45-47. *)
Definition JogoDasCadeiras_ctor (n : Z) : JogoDasCadeiras :=
  MkJogo n (int_wrap (n - 1)) n.

(** Lines 52-54: [if (cadeiras > 1) cadeiras--;] *)
Definition rodada_cadeiras (w : Mundo) : Mundo :=
  let g := jogo w in
  if 1 <? cadeiras g
  then com_jogo (MkJogo (num_jogadores g) (int_wrap (cadeiras g - 1)) (jogadores_restantes g)) w
  else w.

Definition inspect {A} (a : A) : {b | a = b} := exist _ a eq_refl.

(** Lines 56-59: [int esgotar = 0; while (cadeira_sem.try_acquire()) ++esgotar;]
    The loop ends because every successful [try_acquire] lowers the counter. *)
Equations esgotar_loop (s : counting_semaphore) (esgotar : Z) : counting_semaphore * Z
  by wf (Z.to_nat (counter s)) lt :=
  esgotar_loop s esgotar with inspect (try_acquire s) := {
    | exist _ (true, s') H => esgotar_loop s' (int_wrap (esgotar + 1))
    | exist _ (false, s') H => (s', esgotar) }.
Next Obligation.
  unfold try_acquire in H. destruct (0 <? counter s) eqn:E; inversion H; subst; simpl.
  apply Z.ltb_lt in E. lia.
Qed.

Definition rodada_esgota (w : Mundo) : Mundo :=
  com_sem (fst (esgotar_loop (cadeira_sem w) 0)) w.

(** Line 61: [cadeira_sem.release(cadeiras);] *)
Definition rodada_repoe (w : Mundo) : Mundo :=
  com_sem (release (cadeiras (jogo w)) (cadeira_sem w)) w.

(** Line 62: [musica_parada.store(false);] *)
Definition rodada_musica (w : Mundo) : Mundo := com_musica_parada false w.

(** Line 64: the announcement prints [NUM_JOGADORES-1], not [cadeiras]. *)
Definition rodada_anuncia (w : Mundo) : Mundo :=
  cout (MsgRodada (jogadores_restantes (jogo w)) (NUM_JOGADORES - 1)) w.

(** [void iniciar_rodada()], lines 49-65. *)
Definition iniciar_rodada (w : Mundo) : Mundo :=
  let w1 := rodada_cadeiras w in
  let w2 := rodada_esgota w1 in
  let w3 := rodada_repoe w2 in
  let w4 := rodada_musica w3 in
  rodada_anuncia w4.

(** Lines 56-61 on their own: what the specification calls
    [ChairPool.resize_and_refill(newCount)].  [iniciar_rodada] runs it with
    [newCount = cadeiras] (lemma [iniciar_rodada_refill]). *)
Definition resize_and_refill (newCount : Z) (s : counting_semaphore) : counting_semaphore :=
  release newCount (fst (esgotar_loop s 0)).

(** [void parar_musica()], lines 67-74. *)
Definition parar_musica (w : Mundo) : Mundo :=
  cout MsgMusicaParou (com_musica_parada true w).

(** [int getJogadoresRestantes()], lines 76-79. *)
Definition getJogadoresRestantes (w : Mundo) : Z := jogadores_restantes (jogo w).

(** [void eliminar_jogador(int jogador_id)], lines 81-85. *)
Definition eliminar_jogador (jogador_id : Z) (w : Mundo) : Mundo :=
  let g := jogo w in
  cout (MsgEliminado jogador_id)
    (com_jogo (MkJogo (num_jogadores g) (cadeiras g) (int_wrap (jogadores_restantes g - 1))) w).

(** [void exibir_estado()], lines 87-91. *)
Definition exibir_estado (w : Mundo) : Mundo :=
  cout (MsgEstado (jogadores_restantes (jogo w)) (cadeiras (jogo w))) w.

(** ** [class Jogador] *)

Record Jogador := MkJogador { id : Z; eliminado : bool }.

(** [void tentar_ocupar_cadeira()], lines 105-111. *)
Definition tentar_ocupar_cadeira (j : Jogador) (w : Mundo) : Jogador * Mundo :=
  let (ok, s') := try_acquire (cadeira_sem w) in
  if ok then (j, cout (MsgSentou (id j)) (com_sem s' w))
  else (MkJogador (id j) true, com_sem s' w).

(** [void verificar_eliminacao()], lines 113-118. *)
Definition verificar_eliminacao (j : Jogador) (w : Mundo) : Mundo :=
  if eliminado j then com_jogo_ativo false (eliminar_jogador (id j) w) else w.

(** ** [class Coordenador] *)

(** [void liberar_threads_eliminadas()], lines 169-172. *)
Definition liberar_threads_eliminadas (w : Mundo) : Mundo :=
  com_sem (release (NUM_JOGADORES - 1) (cadeira_sem w)) w.

(** The state at the start of [main]: the globals of lines 15-19 and
    [JogoDasCadeiras jogo(NUM_JOGADORES)]. *)
Definition mundo_inicial : Mundo :=
  MkMundo (JogoDasCadeiras_ctor NUM_JOGADORES) (MkSem (NUM_JOGADORES - 1)) false true [].

(** ** The threads

    Each thread is a program counter over the shared [Mundo]; one step is one
    access to shared state (or one purely local test).  A line written to
    [cout] is a step of its own; only the line of [eliminar_jogador] goes
    with the decrement it reports, both being in one critical section of
    [jogo_mutex].  A step is [None] when the thread has finished or has to
    wait.  The two [sleep_for] calls of the coordinator are steps that change
    nothing: they may take any time. *)

(** Program points of [Jogador::joga], lines 120-135. *)
Inductive PcJogador :=
| JLaco        (* 121: while (jogo_ativo.load()) *)
| JEspera      (* 122-124: music_cv.wait(lock, musica_parada || !jogo_ativo) *)
| JTesteAtivo  (* 126: if (!jogo_ativo.load()) break; *)
| JTesteElim   (* 128: if (eliminado) return; *)
| JTenta       (* 130, 106, 109: cadeira_sem.try_acquire(), else eliminado = true *)
| JSentou      (* 107: cout, after a successful try_acquire *)
| JVerifica    (* 131, 114-115: if (eliminado) jogo.eliminar_jogador(id); *)
| JDesativa    (* 116: jogo_ativo = false; *)
| JRetorno     (* 133: if (eliminado) return; *)
| JFim.        (* the thread has left joga() *)

Global Instance PcJogador_eq_dec : EqDecision PcJogador.
Proof. solve_decision. Defined.

Record ThreadJogador := MkThread { obj : Jogador; pcj : PcJogador }.

(** Program points of [Coordenador::iniciar_jogo], lines 148-167, with
    [iniciar_rodada] (lines 49-65) inlined. *)
Inductive PcCoordenador :=
| CLaco                  (* 149: while (jogo.getJogadoresRestantes() > 1) *)
| CCadeiras              (* 50-54: lock jogo_mutex; if (cadeiras > 1) cadeiras--; *)
| CEsgota (esgotar : Z)  (* 57-59: while (cadeira_sem.try_acquire()) ++esgotar; *)
| CRepoe                 (* 61: cadeira_sem.release(cadeiras); *)
| CMusica                (* 62: musica_parada.store(false); *)
| CAnuncia               (* 64-65: cout; unlock jogo_mutex *)
| CDorme1                (* 152-155: sleep_for(dist(gen)) *)
| CParaMusica            (* 158, 68-72: musica_parada = true; notify_all *)
| CAvisaParada           (* 73: cout *)
| CDorme2                (* 160: sleep_for(1000ms) *)
| CLibera                (* 162: liberar_threads_eliminadas(); *)
| CVencedor              (* 165: cout *)
| CDesativa              (* 166: jogo_ativo = false; *)
| CFim.                  (* the thread has left iniciar_jogo() *)

Record Sistema := MkSistema {
  mundo : Mundo;
  jogadores_objs : list ThreadJogador;
  coordenador : PcCoordenador
}.

(** [jogo_mutex] is held across steps only by the coordinator, inside
    [iniciar_rodada]; the other critical sections are single steps. *)
Definition jogo_mutex_ocupado (c : PcCoordenador) : bool :=
  match c with
  | CEsgota _ | CRepoe | CMusica | CAnuncia => true
  | _ => false
  end.

(** One step of a player.  The wait on [music_cv] is modelled by its
    predicate: the thread goes on when the predicate holds. *)
Definition passo_jogador (mutex_livre : bool) (t : ThreadJogador) (w : Mundo)
  : option (ThreadJogador * Mundo) :=
  let j := obj t in
  match pcj t with
  | JLaco => Some (MkThread j (if jogo_ativo w then JEspera else JFim), w)
  | JEspera =>
      if musica_parada w || negb (jogo_ativo w)
      then Some (MkThread j JTesteAtivo, w) else None
  | JTesteAtivo => Some (MkThread j (if negb (jogo_ativo w) then JFim else JTesteElim), w)
  | JTesteElim => Some (MkThread j (if eliminado j then JFim else JTenta), w)
  | JTenta =>
      let (ok, s') := try_acquire (cadeira_sem w) in
      if ok then Some (MkThread j JSentou, com_sem s' w)
      else Some (MkThread (MkJogador (id j) true) JVerifica, com_sem s' w)
  | JSentou => Some (MkThread j JVerifica, cout (MsgSentou (id j)) w)
  | JVerifica =>
      if eliminado j
      then if mutex_livre
           then Some (MkThread j JDesativa, eliminar_jogador (id j) w) else None
      else Some (MkThread j JRetorno, w)
  | JDesativa => Some (MkThread j JRetorno, com_jogo_ativo false w)
  | JRetorno => Some (MkThread j (if eliminado j then JFim else JLaco), w)
  | JFim => None
  end.

(** One step of the coordinator. *)
Definition passo_coordenador (c : PcCoordenador) (w : Mundo)
  : option (PcCoordenador * Mundo) :=
  match c with
  | CLaco => Some (if 1 <? getJogadoresRestantes w then CCadeiras else CVencedor, w)
  | CCadeiras => Some (CEsgota 0, rodada_cadeiras w)
  | CEsgota esgotar =>
      let (ok, s') := try_acquire (cadeira_sem w) in
      Some (if ok then CEsgota (int_wrap (esgotar + 1)) else CRepoe, com_sem s' w)
  | CRepoe => Some (CMusica, rodada_repoe w)
  | CMusica => Some (CAnuncia, rodada_musica w)
  | CAnuncia => Some (CDorme1, rodada_anuncia w)
  | CDorme1 => Some (CParaMusica, w)
  | CParaMusica => Some (CAvisaParada, com_musica_parada true w)
  | CAvisaParada => Some (CDorme2, cout MsgMusicaParou w)
  | CDorme2 => Some (CLibera, w)
  | CLibera => Some (CLaco, liberar_threads_eliminadas w)
  | CVencedor => Some (CDesativa, cout MsgVencedor w)
  | CDesativa => Some (CFim, com_jogo_ativo false w)
  | CFim => None
  end.

Inductive Thread := TCoordenador | TJogador (i : nat).

(** One step of the system: the thread [t] runs. *)
Definition passo (t : Thread) (s : Sistema) : option Sistema :=
  match t with
  | TCoordenador =>
      match passo_coordenador (coordenador s) (mundo s) with
      | Some (c', w') => Some (MkSistema w' (jogadores_objs s) c')
      | None => None
      end
  | TJogador i =>
      match jogadores_objs s !! i with
      | Some tj =>
          match passo_jogador (negb (jogo_mutex_ocupado (coordenador s))) tj (mundo s) with
          | Some (tj', w') => Some (MkSistema w' (<[i := tj']> (jogadores_objs s)) (coordenador s))
          | None => None
          end
      | None => None
      end
  end.

(** A schedule is the list of the threads that run, in order. *)
Fixpoint executa (sched : list Thread) (s : Sistema) : option Sistema :=
  match sched with
  | [] => Some s
  | t :: sched' =>
      match passo t s with
      | Some s' => executa sched' s'
      | None => None
      end
  end.

(** [main], lines 180-195: players [1 .. NUM_JOGADORES] and the coordinator. *)
Definition sistema_inicial : Sistema :=
  MkSistema mundo_inicial
    ((fun i => MkThread (MkJogador (Z.of_nat i) false) JLaco)
       <$> seq 1 (Z.to_nat NUM_JOGADORES))
    CLaco.

(** The states of the running program. *)
Inductive alcancavel_de (s0 : Sistema) : Sistema -> Prop :=
| alc_refl : alcancavel_de s0 s0
| alc_passo s t s' : alcancavel_de s0 s -> passo t s = Some s' -> alcancavel_de s0 s'.

Definition alcancavel : Sistema -> Prop := alcancavel_de sistema_inicial.

Definition todos_jogadores_sairam (s : Sistema) : Prop :=
  Forall (fun tj => pcj tj = JFim) (jogadores_objs s).

(** ** Notions used in the statements *)

(** How often the line of [eliminar_jogador(x)] has been printed. *)
Fixpoint eliminacoes (x : Z) (out : list Mensagem) : Z :=
  match out with
  | [] => 0
  | MsgEliminado y :: out' => (if x =? y then 1 else 0) + eliminacoes x out'
  | _ :: out' => eliminacoes x out'
  end.

(** How many successful claims have been printed. *)
Fixpoint sentados (out : list Mensagem) : Z :=
  match out with
  | [] => 0
  | MsgSentou _ :: out' => 1 + sentados out'
  | _ :: out' => sentados out'
  end.

(** 1 once the player has gone through its call of [eliminar_jogador]. *)
Definition reportou (tj : ThreadJogador) : Z :=
  if eliminado (obj tj)
  then match pcj tj with JDesativa | JRetorno | JFim => 1 | _ => 0 end
  else 0.

Definition soma_reportados (js : list ThreadJogador) : Z :=
  foldr (fun tj acc => reportou tj + acc) 0 js.

(** What holds of a player at each program point. *)
Definition inv_jogador (tj : ThreadJogador) (w : Mundo) : Prop :=
  eliminacoes (id (obj tj)) (saida w) = reportou tj /\
  match pcj tj with
  | JLaco | JEspera | JTesteAtivo | JTesteElim | JTenta | JSentou =>
      eliminado (obj tj) = false
  | JVerifica | JDesativa => True
  | JRetorno | JFim => eliminado (obj tj) = true -> jogo_ativo w = false
  end.

(** The invariant of the running program. *)
Definition inv_sistema (s : Sistema) : Prop :=
  length (jogadores_objs s) = Z.to_nat NUM_JOGADORES /\
  (forall i tj, jogadores_objs s !! i = Some tj ->
     id (obj tj) = Z.of_nat i + 1 /\ inv_jogador tj (mundo s)) /\
  jogadores_restantes (jogo (mundo s)) = NUM_JOGADORES - soma_reportados (jogadores_objs s).

(** The step of [t] in [s] is a call of [eliminar_jogador]. *)
Definition passo_elimina (t : Thread) (s : Sistema) : bool :=
  match t with
  | TCoordenador => false
  | TJogador i =>
      match jogadores_objs s !! i with
      | Some tj => bool_decide (pcj tj = JVerifica) && eliminado (obj tj)
      | None => false
      end
  end.

(** The step of [t] in [s] is a [release] on the semaphore (the refill of
    line 61 or the sweep of line 171). *)
Definition passo_libera (t : Thread) (s : Sistema) : bool :=
  match t with
  | TCoordenador =>
      match coordenador s with CRepoe | CLibera => true | _ => false end
  | TJogador _ => false
  end.

(** The step of [t] in [s] is a call of [try_acquire]: a player at line 106
    or the coordinator in its drain loop (line 57). *)
Definition passo_tenta (t : Thread) (s : Sistema) : bool :=
  match t with
  | TCoordenador =>
      match coordenador s with CEsgota _ => true | _ => false end
  | TJogador i =>
      match jogadores_objs s !! i with
      | Some tj => bool_decide (pcj tj = JTenta)
      | None => false
      end
  end.

(** The step is a call of [try_acquire] that returns true. *)
Definition passo_adquire (t : Thread) (s : Sistema) : bool :=
  passo_tenta t s && fst (try_acquire (cadeira_sem (mundo s))).

(** The step is a successful claim of a player. *)
Definition passo_senta (t : Thread) (s : Sistema) : bool :=
  match t with
  | TCoordenador => false
  | TJogador _ => passo_adquire t s
  end.

(** How many steps of the schedule [sched], run from [s], satisfy [p]. *)
Fixpoint conta_passos (p : Thread -> Sistema -> bool) (sched : list Thread) (s : Sistema)
  : Z :=
  match sched with
  | [] => 0
  | t :: sched' =>
      (if p t s then 1 else 0) +
      match passo t s with
      | Some s' => conta_passos p sched' s'
      | None => 0
      end
  end.

(** Two schedules of the program.  In both the coordinator first runs the
    round start and stops the music (12 steps).

    [sched_trava]: players 1 and 2 sit down, player 3 finds no chair, is
    eliminated and clears [jogo_ativo]; then players 4, 1 and 2 see the
    cleared flag at line 121 and leave; the coordinator sleeps, sweeps and is
    back at its loop test. *)
Definition sched_trava : list Thread :=
  replicate 12 TCoordenador
  ++ replicate 8 (TJogador 0) ++ replicate 8 (TJogador 1)
  ++ replicate 8 (TJogador 2)
  ++ [TJogador 3; TJogador 0; TJogador 1]
  ++ replicate 2 TCoordenador.

(** [sched_zero]: all four players pass the test of line 126 while the game
    is active; players 1 and 2 sit down and, the music still being stopped,
    come round to line 130 again; then all four find no chair and are
    eliminated; the coordinator finishes. *)
Definition sched_zero : list Thread :=
  replicate 12 TCoordenador
  ++ replicate 4 (TJogador 0) ++ replicate 4 (TJogador 1)
  ++ replicate 4 (TJogador 2) ++ replicate 4 (TJogador 3)
  ++ replicate 8 (TJogador 0) ++ replicate 8 (TJogador 1)
  ++ [TJogador 0; TJogador 1; TJogador 2; TJogador 3]
  ++ replicate 3 (TJogador 0) ++ replicate 3 (TJogador 1)
  ++ replicate 3 (TJogador 2) ++ replicate 3 (TJogador 3)
  ++ replicate 5 TCoordenador.

(** A schedule run as long as no step is a [release]: what happens between
    two refills. *)
Fixpoint executa_sem_liberar (sched : list Thread) (s : Sistema) : option Sistema :=
  match sched with
  | [] => Some s
  | t :: sched' =>
      if passo_libera t s then None
      else match passo t s with
           | Some s' => executa_sem_liberar sched' s'
           | None => None
           end
  end.

Definition estado_apos (sched : list Thread) : Sistema :=
  match executa sched sistema_inicial with
  | Some s => s
  | None => sistema_inicial
  end.

(** States along [sched_trava]: the music has just stopped (2 permits); *)
Definition estado_musica_parou : Sistema :=
  Eval vm_compute in estado_apos (take 12 sched_trava).

(** players 1 and 2 are seated and player 3 is at line 130 with no permit
    left; *)
Definition estado_sem_cadeira : Sistema :=
  Eval vm_compute in estado_apos (take 32 sched_trava).

(** player 3 has failed its claim and is about to call [eliminar_jogador]; *)
Definition estado_antes_de_eliminar : Sistema :=
  Eval vm_compute in estado_apos (take 33 sched_trava).

(** the end of the schedule. *)
Definition estado_travado : Sistema :=
  Eval vm_compute in estado_apos sched_trava.

(** What holds from [estado_travado] on: the players are gone, three of them
    are still counted, and the coordinator goes round its loop with one chair,
    every [release] within the bound of the semaphore. *)
Definition inv_trava (s : Sistema) : Prop :=
  todos_jogadores_sairam s /\
  jogadores_restantes (jogo (mundo s)) = 3 /\
  let c := cadeiras (jogo (mundo s)) in
  let p := counter (cadeira_sem (mundo s)) in
  match coordenador s with
  | CLaco | CCadeiras => 1 <= c <= 2 /\ 0 <= p <= sem_max
  | CEsgota _ => c = 1 /\ 0 <= p <= sem_max
  | CRepoe => c = 1 /\ p = 0
  | CMusica | CAnuncia | CDorme1 | CParaMusica | CAvisaParada | CDorme2 | CLibera =>
      c = 1 /\ p = 1
  | CVencedor | CDesativa | CFim => False
  end.

(** ** Notions used in the further properties *)

(** How many lines of [out] satisfy [p]. *)
Fixpoint conta (p : Mensagem -> bool) (out : list Mensagem) : Z :=
  match out with
  | [] => 0
  | m :: out' => (if p m then 1 else 0) + conta p out'
  end.

Definition e_rodada (m : Mensagem) : bool :=
  match m with MsgRodada _ _ => true | _ => false end.
Definition e_parada (m : Mensagem) : bool :=
  match m with MsgMusicaParou => true | _ => false end.
Definition e_eliminacao (m : Mensagem) : bool :=
  match m with MsgEliminado _ => true | _ => false end.
Definition e_vencedor (m : Mensagem) : bool :=
  match m with MsgVencedor => true | _ => false end.

(** The rounds begun so far: the announcements printed, plus the round whose
    start the coordinator is in the middle of (past line 54, before its
    announcement). *)
Definition rodadas_iniciadas (s : Sistema) : Z :=
  conta e_rodada (saida (mundo s)) + (if jogo_mutex_ocupado (coordenador s) then 1 else 0).

(** The coordinator has left its loop. *)
Definition fora_do_laco (c : PcCoordenador) : bool :=
  match c with CVencedor | CDesativa | CFim => true | _ => false end.

(** What holds of the semaphore at each program point of the coordinator. *)
Definition inv_semaforo (s : Sistema) : Prop :=
  let c := cadeiras (jogo (mundo s)) in
  let p := counter (cadeira_sem (mundo s)) in
  1 <= c <= NUM_JOGADORES - 1 /\
  match coordenador s with
  | CLaco | CCadeiras | CVencedor | CDesativa | CFim => 0 <= p <= NUM_JOGADORES + 1
  | CEsgota _ => c <= NUM_JOGADORES - 2 /\ 0 <= p <= NUM_JOGADORES + 1
  | CRepoe => c <= NUM_JOGADORES - 2 /\ p = 0
  | CMusica | CAnuncia | CDorme1 | CParaMusica | CAvisaParada | CDorme2 | CLibera =>
      c <= NUM_JOGADORES - 2 /\ 0 <= p <= c
  end.


(** More states along the two schedules: the music has stopped and player 1
    is at line 130 with two permits left; *)
Definition estado_na_corrida : Sistema :=
  Eval vm_compute in estado_apos (take 16 sched_trava).

(** the coordinator has gone through its first round alone, sweep included; *)
Definition estado_varrido : Sistema :=
  Eval vm_compute in estado_apos (replicate 14 TCoordenador).

(** the end of [sched_zero]. *)
Definition estado_zero : Sistema :=
  Eval vm_compute in estado_apos sched_zero.

(** [n] steps of one player on its own thread state and the shared state. *)
Fixpoint passos_jogador (n : nat) (livre : bool) (tj : ThreadJogador) (w : Mundo)
  : option (ThreadJogador * Mundo) :=
  match n with
  | O => Some (tj, w)
  | S n' =>
      match passo_jogador livre tj w with
      | Some (tj', w') => passos_jogador n' livre tj' w'
      | None => None
      end
  end.

(** * Properties *)

(** ** Arithmetic of [int] *)

Lemma int_wrap_id z : int_range z -> int_wrap z = z.
Proof.
  unfold int_range, INT_MIN, INT_MAX, int_wrap. intros Hz.
  rewrite Z.mod_small; lia.
Qed.

Lemma int_dec_exact v : INT_MIN < v <= INT_MAX -> int_wrap (v - 1) = v - 1.
Proof. intros Hv. apply int_wrap_id. unfold int_range. lia. Qed.

(** ** The semaphore *)

Lemma try_acquire_true s s' :
  try_acquire s = (true, s') -> 0 < counter s /\ s' = MkSem (counter s - 1).
Proof.
  unfold try_acquire. destruct (0 <? counter s) eqn:E; intros H; inversion H; subst.
  apply Z.ltb_lt in E. split; [lia | reflexivity].
Qed.

Lemma try_acquire_false s s' :
  try_acquire s = (false, s') -> counter s <= 0 /\ s' = s.
Proof.
  unfold try_acquire. destruct (0 <? counter s) eqn:E; intros H; inversion H; subst.
  apply Z.ltb_ge in E. split; [lia | reflexivity].
Qed.

(** The drain loop stops at an empty semaphore, having counted the permits it
    took. *)
Lemma esgotar_loop_spec s esgotar :
  sem_ok s ->
  fst (esgotar_loop s esgotar) = MkSem 0 /\
  (0 <= esgotar -> esgotar + counter s <= INT_MAX ->
   snd (esgotar_loop s esgotar) = esgotar + counter s).
Proof.
  unfold sem_ok. funelim (esgotar_loop s esgotar); intros Hs.
  - clear Heqcall H1. apply try_acquire_true in H as [Hpos ->]. simpl in *.
    destruct H0 as [Hfst Hsnd]; [lia|]. split; [exact Hfst|].
    intros He Hmax.
    assert (Hw : int_wrap (esgotar + 1) = esgotar + 1)
      by (apply int_wrap_id; unfold int_range, INT_MIN, INT_MAX in *; lia).
    rewrite Hw in *. rewrite Hsnd; lia.
  - clear Heqcall H0. apply try_acquire_false in H as [Hle ->]. simpl. destruct s as [c]; simpl in *.
    split; [f_equal; lia | intros; lia].
Qed.

Lemma esgotar_loop_vazio s : sem_ok s -> fst (esgotar_loop s 0) = MkSem 0.
Proof. intros Hs. apply (esgotar_loop_spec s 0 Hs). Qed.

Lemma resize_and_refill_counter newCount s :
  sem_ok s -> resize_and_refill newCount s = MkSem newCount.
Proof.
  intros Hs. unfold resize_and_refill. rewrite esgotar_loop_vazio by exact Hs.
  reflexivity.
Qed.

(** [iniciar_rodada] refills the semaphore with the new value of [cadeiras]. *)
Lemma iniciar_rodada_refill w :
  cadeira_sem (iniciar_rodada w) =
  resize_and_refill (cadeiras (jogo (iniciar_rodada w))) (cadeira_sem w).
Proof.
  unfold iniciar_rodada, rodada_anuncia, rodada_musica, rodada_repoe, rodada_esgota,
    rodada_cadeiras, resize_and_refill.
  destruct (1 <? cadeiras (jogo w)); reflexivity.
Qed.

Lemma iniciar_rodada_cadeiras w :
  cadeiras (jogo (iniciar_rodada w)) =
  if 1 <? cadeiras (jogo w) then int_wrap (cadeiras (jogo w) - 1) else cadeiras (jogo w).
Proof.
  unfold iniciar_rodada, rodada_anuncia, rodada_musica, rodada_repoe, rodada_esgota,
    rodada_cadeiras.
  destruct (1 <? cadeiras (jogo w)); reflexivity.
Qed.

(** ** Rounds: the chair count and the refill *)

(** C1 (the claim fails on the code).  The claim says a round that begins with
    [jogadores_restantes > 1] is played with [jogadores_restantes - 1] chairs,
    the first round of an N-player game with N - 1.  In the program as
    written (N = [NUM_JOGADORES] = 4) the first call of [iniciar_rodada]
    lowers [cadeiras] from 3 to 2 before the refill: the round is played by 4
    players on 2 chairs, while the announcement printed by the same call says
    3 chairs.  This is the state in which the coordinator of the running
    program starts its first sleep. *)
Theorem primeira_rodada_cadeiras :
  let w := iniciar_rodada mundo_inicial in
  cadeiras (jogo mundo_inicial) = NUM_JOGADORES - 1 /\
  jogadores_restantes (jogo w) = NUM_JOGADORES /\
  cadeiras (jogo w) = NUM_JOGADORES - 2 /\
  cadeira_sem w = MkSem (NUM_JOGADORES - 2) /\
  saida w = [MsgRodada NUM_JOGADORES (NUM_JOGADORES - 1)] /\
  cadeiras (jogo w) <> jogadores_restantes (jogo w) - 1 /\
  executa (replicate 9 TCoordenador) sistema_inicial =
    Some (MkSistema w (jogadores_objs sistema_inicial) CDorme1).
Proof. vm_compute. repeat split; discriminate. Qed.

(** C6.  [iniciar_rodada] lowers [cadeiras] by exactly one when it is greater
    than 1 and leaves it unchanged otherwise, so a chair count of at least 1
    stays at least 1; the semaphore is refilled with the resulting count. *)
Theorem iniciar_rodada_decrementa w :
  cadeiras (jogo w) <= INT_MAX ->
  sem_ok (cadeira_sem w) ->
  let c := cadeiras (jogo w) in
  let w' := iniciar_rodada w in
  (1 < c -> cadeiras (jogo w') = c - 1) /\
  (c <= 1 -> cadeiras (jogo w') = c) /\
  (1 <= c -> 1 <= cadeiras (jogo w')) /\
  cadeira_sem w' = MkSem (cadeiras (jogo w')).
Proof.
  intros Hmax Hs c w'. subst c w'.
  rewrite iniciar_rodada_refill, resize_and_refill_counter by exact Hs.
  rewrite iniciar_rodada_cadeiras.
  destruct (1 <? cadeiras (jogo w)) eqn:E.
  - apply Z.ltb_lt in E.
    rewrite int_dec_exact by (unfold INT_MIN; lia).
    repeat split; lia.
  - apply Z.ltb_ge in E. repeat split; lia.
Qed.

Lemma iniciar_rodada_decrementa_witness :
  let w := mundo_inicial in
  cadeiras (jogo w) <= INT_MAX /\ sem_ok (cadeira_sem w) /\
  cadeira_sem (iniciar_rodada w) = MkSem (cadeiras (jogo (iniciar_rodada w))).
Proof.
  assert (H1 : cadeiras (jogo mundo_inicial) <= INT_MAX) by (vm_compute; discriminate).
  assert (H2 : sem_ok (cadeira_sem mundo_inicial)) by (vm_compute; discriminate).
  split; [exact H1 | split; [exact H2 |]].
  apply (iniciar_rodada_decrementa mundo_inicial H1 H2).
Defined.

(** C4.  Whatever the semaphore held before, also after the sweep
    [release(NUM_JOGADORES - 1)] of [liberar_threads_eliminadas], the drain
    loop of [try_acquire] calls empties it (a further [try_acquire] fails)
    and the refill, within the bound of the semaphore for a count up to
    [sem_max], leaves exactly [newCount] permits. *)
Theorem resize_and_refill_exato newCount s w :
  sem_ok s ->
  sem_ok (cadeira_sem w) ->
  fst (esgotar_loop s 0) = MkSem 0 /\
  try_acquire (fst (esgotar_loop s 0)) = (false, MkSem 0) /\
  (0 <= newCount <= sem_max -> release_pre newCount (fst (esgotar_loop s 0))) /\
  resize_and_refill newCount s = MkSem newCount /\
  resize_and_refill newCount (release (NUM_JOGADORES - 1) s) = MkSem newCount /\
  cadeira_sem (iniciar_rodada (liberar_threads_eliminadas w)) =
    MkSem (cadeiras (jogo (iniciar_rodada w))).
Proof.
  intros Hs Hw.
  assert (Hrel : forall s0, sem_ok s0 -> sem_ok (release (NUM_JOGADORES - 1) s0)).
  { unfold sem_ok, release, NUM_JOGADORES. simpl. intros. lia. }
  rewrite esgotar_loop_vazio by exact Hs.
  split; [reflexivity | split; [reflexivity | split; [| split; [| split]]]].
  - unfold release_pre. simpl. lia.
  - apply resize_and_refill_counter, Hs.
  - apply resize_and_refill_counter, Hrel, Hs.
  - rewrite iniciar_rodada_refill, resize_and_refill_counter by (apply Hrel, Hw).
    rewrite !iniciar_rodada_cadeiras. reflexivity.
Qed.

Lemma resize_and_refill_exato_witness :
  sem_ok (MkSem 3) /\ sem_ok (cadeira_sem mundo_inicial) /\
  resize_and_refill 2 (release (NUM_JOGADORES - 1) (MkSem 3)) = MkSem 2.
Proof.
  assert (H1 : sem_ok (MkSem 3)) by (vm_compute; discriminate).
  assert (H2 : sem_ok (cadeira_sem mundo_inicial)) by (vm_compute; discriminate).
  split; [exact H1 | split; [exact H2 |]].
  apply (resize_and_refill_exato 2 (MkSem 3) mundo_inicial H1 H2).
Defined.

(** C7.  Drain-then-fill with the same value, once or any number of times in
    a row with no claim in between, leaves the permit count equal to that
    value. *)
Theorem resize_and_refill_idempotente v s (n : nat) :
  sem_ok s -> 0 <= v ->
  resize_and_refill v (resize_and_refill v s) = resize_and_refill v s /\
  counter (resize_and_refill v (resize_and_refill v s)) = v /\
  counter (Nat.iter (S n) (resize_and_refill v) s) = v.
Proof.
  intros Hs Hv.
  assert (Hit : forall m, Nat.iter (S m) (resize_and_refill v) s = MkSem v).
  { induction m as [|m IH].
    - simpl. apply resize_and_refill_counter, Hs.
    - change (Nat.iter (S (S m)) (resize_and_refill v) s)
        with (resize_and_refill v (Nat.iter (S m) (resize_and_refill v) s)).
      rewrite IH. apply resize_and_refill_counter. exact Hv. }
  rewrite (resize_and_refill_counter v s Hs).
  rewrite (resize_and_refill_counter v (MkSem v)) by exact Hv.
  rewrite Hit. auto.
Qed.

Lemma resize_and_refill_idempotente_witness :
  sem_ok (MkSem 4) /\ 0 <= 2 /\
  resize_and_refill 2 (resize_and_refill 2 (MkSem 4)) = resize_and_refill 2 (MkSem 4).
Proof.
  assert (H1 : sem_ok (MkSem 4)) by (vm_compute; discriminate).
  assert (H2 : 0 <= 2) by lia.
  split; [exact H1 | split; [exact H2 |]].
  apply (resize_and_refill_idempotente 2 (MkSem 4) 0 H1 H2).
Defined.

(** C10.  [iniciar_rodada] leaves [jogadores_restantes] as it was: of the
    state it changes only [cadeiras], the semaphore and [musica_parada]
    (and it prints its announcement). *)
Theorem iniciar_rodada_preserva_jogadores w :
  let w' := iniciar_rodada w in
  jogadores_restantes (jogo w') = jogadores_restantes (jogo w) /\
  num_jogadores (jogo w') = num_jogadores (jogo w) /\
  jogo_ativo w' = jogo_ativo w /\
  w' = MkMundo
         (MkJogo (num_jogadores (jogo w)) (cadeiras (jogo w')) (jogadores_restantes (jogo w)))
         (cadeira_sem w') false (jogo_ativo w)
         (saida w ++ [MsgRodada (jogadores_restantes (jogo w)) (NUM_JOGADORES - 1)]).
Proof.
  unfold iniciar_rodada, rodada_anuncia, rodada_musica, rodada_repoe, rodada_esgota,
    rodada_cadeiras.
  destruct w as [[n c r] sem mp ja out]; simpl.
  destruct (1 <? c); simpl; auto.
Qed.

Lemma iniciar_rodada_restantes w :
  jogadores_restantes (jogo (iniciar_rodada w)) = jogadores_restantes (jogo w).
Proof.
  unfold iniciar_rodada, rodada_anuncia, rodada_musica, rodada_repoe, rodada_esgota,
    rodada_cadeiras.
  destruct (1 <? cadeiras (jogo w)); reflexivity.
Qed.

(** ** Eliminations *)

Lemma eliminar_jogador_restantes jogador_id w :
  jogadores_restantes (jogo (eliminar_jogador jogador_id w)) =
  int_wrap (jogadores_restantes (jogo w) - 1).
Proof. reflexivity. Qed.

(** C9.  [eliminar_jogador] has no floor at zero: one call takes
    [jogadores_restantes] from v to v - 1 for every v (0 included) whose
    predecessor is an [int], and k calls take it to v - k, below zero as
    soon as k > v. *)
Theorem eliminar_jogador_sem_piso jogador_id w (k : nat) :
  int_range (jogadores_restantes (jogo w)) ->
  INT_MIN <= jogadores_restantes (jogo w) - Z.of_nat k ->
  (1 <= k)%nat ->
  jogadores_restantes (jogo (eliminar_jogador jogador_id w)) =
    jogadores_restantes (jogo w) - 1 /\
  jogadores_restantes (jogo (Nat.iter k (eliminar_jogador jogador_id) w)) =
    jogadores_restantes (jogo w) - Z.of_nat k /\
  (jogadores_restantes (jogo w) < Z.of_nat k ->
   jogadores_restantes (jogo (Nat.iter k (eliminar_jogador jogador_id) w)) < 0).
Proof.
  intros Hr Hk H1.
  assert (Hit : forall m : nat, INT_MIN <= jogadores_restantes (jogo w) - Z.of_nat m ->
            jogadores_restantes (jogo (Nat.iter m (eliminar_jogador jogador_id) w)) =
            jogadores_restantes (jogo w) - Z.of_nat m).
  { induction m as [|m IH]; intros Hm.
    - simpl. lia.
    - change (Nat.iter (S m) (eliminar_jogador jogador_id) w)
        with (eliminar_jogador jogador_id (Nat.iter m (eliminar_jogador jogador_id) w)).
      rewrite eliminar_jogador_restantes, IH by lia.
      rewrite int_dec_exact; unfold int_range in Hr; lia. }
  split; [| split].
  - rewrite eliminar_jogador_restantes. apply int_dec_exact.
    unfold int_range in Hr. lia.
  - apply Hit, Hk.
  - intros Hlt. rewrite Hit by exact Hk. lia.
Qed.

Lemma eliminar_jogador_sem_piso_witness :
  let w := com_jogo (MkJogo 4 3 0) mundo_inicial in
  int_range (jogadores_restantes (jogo w)) /\
  INT_MIN <= jogadores_restantes (jogo w) - Z.of_nat 1 /\
  (1 <= 1)%nat /\
  jogadores_restantes (jogo (eliminar_jogador 1 w)) = 0 - 1.
Proof.
  set (w := com_jogo (MkJogo 4 3 0) mundo_inicial).
  assert (H1 : int_range (jogadores_restantes (jogo w)))
    by (vm_compute; split; discriminate).
  assert (H2 : INT_MIN <= jogadores_restantes (jogo w) - Z.of_nat 1)
    by (vm_compute; discriminate).
  assert (H3 : (1 <= 1)%nat) by lia.
  split; [exact H1 | split; [exact H2 | split; [exact H3 |]]].
  apply (eliminar_jogador_sem_piso 1 w 1 H1 H2 H3).
Defined.

(** ** The running program: reachable states *)

Lemma alcancavel_de_trans s0 s1 s2 :
  alcancavel_de s0 s1 -> alcancavel_de s1 s2 -> alcancavel_de s0 s2.
Proof.
  intros H01 H12. induction H12 as [|s t s' _ IH Hp].
  - exact H01.
  - exact (alc_passo s0 s t s' IH Hp).
Qed.

Lemma executa_alcancavel sched : forall s s',
  executa sched s = Some s' -> alcancavel_de s s'.
Proof.
  induction sched as [|t sched IH]; intros s s' H; simpl in H.
  - inversion H. constructor.
  - destruct (passo t s) as [s1|] eqn:Hp; [|discriminate].
    apply (alcancavel_de_trans s s1 s').
    + exact (alc_passo s s t s1 (alc_refl s) Hp).
    + apply IH, H.
Qed.

Lemma eliminacoes_app x out out' :
  eliminacoes x (out ++ out') = eliminacoes x out + eliminacoes x out'.
Proof.
  induction out as [|m out IH]; simpl; [lia|].
  destruct m; rewrite ?IH; lia.
Qed.

Lemma sentados_app out out' : sentados (out ++ out') = sentados out + sentados out'.
Proof.
  induction out as [|m out IH]; simpl; [lia|].
  destruct m; rewrite ?IH; lia.
Qed.

Lemma reportou_bounds tj : 0 <= reportou tj <= 1.
Proof. unfold reportou. destruct (eliminado (obj tj)), (pcj tj); lia. Qed.

Lemma soma_reportados_bounds js : 0 <= soma_reportados js <= Z.of_nat (length js).
Proof.
  induction js as [|tj js IH]; simpl; [lia|].
  pose proof (reportou_bounds tj). lia.
Qed.

Lemma soma_reportados_insert js : forall i tj tj',
  js !! i = Some tj ->
  soma_reportados (<[i := tj']> js) = soma_reportados js - reportou tj + reportou tj'.
Proof.
  induction js as [|a js IH]; intros i tj tj' Hi; [discriminate|].
  destruct i as [|i]; simpl in *.
  - inversion Hi; subst. lia.
  - rewrite (IH i tj tj' Hi). lia.
Qed.

(** The invariant of a player depends on the shared state only through the
    count of its own eliminations and through [jogo_ativo], which is never
    set again once cleared. *)
Lemma inv_jogador_estavel tj w w' :
  eliminacoes (id (obj tj)) (saida w') = eliminacoes (id (obj tj)) (saida w) ->
  (jogo_ativo w = false -> jogo_ativo w' = false) ->
  inv_jogador tj w -> inv_jogador tj w'.
Proof.
  unfold inv_jogador. intros He Ha [H1 H2]. split; [congruence|].
  destruct (pcj tj); auto.
Qed.

(** What one step of a player does to itself and to the shared state. *)
Lemma passo_jogador_local livre tj w tj' w' :
  passo_jogador livre tj w = Some (tj', w') ->
  inv_jogador tj w ->
  INT_MIN < jogadores_restantes (jogo w) <= INT_MAX ->
  id (obj tj') = id (obj tj) /\
  inv_jogador tj' w' /\
  jogadores_restantes (jogo w') =
    jogadores_restantes (jogo w) - (reportou tj' - reportou tj) /\
  reportou tj' - reportou tj =
    (if bool_decide (pcj tj = JVerifica) && eliminado (obj tj) then 1 else 0) /\
  (jogo_ativo w = false -> jogo_ativo w' = false) /\
  (forall x, x <> id (obj tj) -> eliminacoes x (saida w') = eliminacoes x (saida w)) /\
  (eliminado (obj tj) = true -> eliminado (obj tj') = true).
Proof.
  intros Hp [Hcount Hpc] Hr.
  destruct tj as [[x e] pc]. destruct w as [[n c r] sem mp ja out].
  unfold passo_jogador, tentar_ocupar_cadeira, try_acquire, eliminar_jogador,
    inv_jogador, reportou in *.
  simpl in *.
  assert (Hdec : int_wrap (r - 1) = r - 1) by (apply int_dec_exact; exact Hr).
  assert (Hself : (x =? x) = true) by apply Z.eqb_refl.
  assert (Hoth : forall y, y <> x -> (y =? x) = false) by (intros; apply Z.eqb_neq; auto).
  destruct pc, e, ja, mp, livre; simpl in *;
    try destruct (0 <? counter sem); simpl in *;
    try discriminate; inversion Hp; subst; clear Hp; simpl;
    rewrite ?eliminacoes_app; simpl; rewrite ?Hself, ?Hdec;
    (repeat split; try (intros; rewrite ?eliminacoes_app; simpl; rewrite ?Hoth by assumption);
     try tauto; try congruence; try lia).
Qed.

(** The coordinator never touches [jogadores_restantes], never prints an
    elimination and never sets [jogo_ativo]. *)
Lemma passo_coordenador_local c w c' w' :
  passo_coordenador c w = Some (c', w') ->
  jogadores_restantes (jogo w') = jogadores_restantes (jogo w) /\
  (jogo_ativo w = false -> jogo_ativo w' = false) /\
  (forall x, eliminacoes x (saida w') = eliminacoes x (saida w)).
Proof.
  intros Hp. destruct w as [[n k r] sem mp ja out].
  unfold passo_coordenador, rodada_cadeiras, rodada_repoe, rodada_musica, rodada_anuncia,
    parar_musica, liberar_threads_eliminadas, try_acquire, getJogadoresRestantes in Hp.
  simpl in Hp.
  destruct c; simpl in Hp;
    try destruct (1 <? r); try destruct (1 <? k); try destruct (0 <? counter sem);
    inversion Hp; subst; simpl;
    (repeat split; intros; rewrite ?eliminacoes_app; simpl; try tauto; try lia).
Qed.

Lemma inv_sistema_inicial : inv_sistema sistema_inicial.
Proof.
  unfold inv_sistema. split; [reflexivity | split; [|reflexivity]].
  intros i tj Hi.
  do 4 (destruct i as [|i]; [inversion Hi; subst; vm_compute; auto |]).
  discriminate.
Qed.

Lemma inv_sistema_restantes s :
  inv_sistema s -> 0 <= jogadores_restantes (jogo (mundo s)) <= NUM_JOGADORES.
Proof.
  intros (Hlen & _ & Hr).
  pose proof (soma_reportados_bounds (jogadores_objs s)) as Hb.
  rewrite Hlen in Hb. unfold NUM_JOGADORES in *. simpl in Hb. lia.
Qed.

Lemma inv_sistema_passo s t s' :
  inv_sistema s -> passo t s = Some s' -> inv_sistema s'.
Proof.
  intros Hinv Hp.
  pose proof (inv_sistema_restantes s Hinv) as Hrange.
  destruct Hinv as (Hlen & Hjs & Hr).
  destruct t as [|i]; simpl in Hp.
  - destruct (passo_coordenador (coordenador s) (mundo s)) as [[c' w']|] eqn:Hc; [|discriminate].
    inversion Hp; subst; clear Hp. unfold inv_sistema; cbn [mundo jogadores_objs coordenador].
    destruct (passo_coordenador_local _ _ _ _ Hc) as (Hr' & Ha & He).
    split; [exact Hlen | split; [| rewrite Hr'; exact Hr]].
    intros k tk Hk. destruct (Hjs k tk Hk) as [Hid Hloc]. split; [exact Hid|].
    apply (inv_jogador_estavel tk (mundo s) w'); auto.
  - destruct (jogadores_objs s !! i) as [tj|] eqn:Hi; [|discriminate].
    destruct (passo_jogador _ tj (mundo s)) as [[tj' w']|] eqn:Hj; [|discriminate].
    inversion Hp; subst; clear Hp. unfold inv_sistema; cbn [mundo jogadores_objs coordenador].
    destruct (Hjs i tj Hi) as [Hid Hloc].
    assert (Hint : INT_MIN < jogadores_restantes (jogo (mundo s)) <= INT_MAX)
      by (unfold INT_MIN, INT_MAX, NUM_JOGADORES in *; lia).
    destruct (passo_jogador_local _ _ _ _ _ Hj Hloc Hint)
      as (Hid' & Hloc' & Hr' & _ & Ha & He & _).
    split; [rewrite length_insert; exact Hlen | split].
    + intros k tk Hk. destruct (decide (k = i)) as [->|Hne].
      * rewrite list_lookup_insert_eq in Hk by (apply lookup_lt_Some in Hi; exact Hi).
        inversion Hk; subst. split; [congruence | exact Hloc'].
      * rewrite list_lookup_insert_ne in Hk by congruence.
        destruct (Hjs k tk Hk) as [Hidk Hlock]. split; [exact Hidk|].
        apply (inv_jogador_estavel tk (mundo s) w'); auto.
        apply He. rewrite Hidk, Hid. lia.
    + rewrite (soma_reportados_insert _ i tj tj' Hi). lia.
Qed.

Lemma inv_alcancavel_de s0 s : inv_sistema s0 -> alcancavel_de s0 s -> inv_sistema s.
Proof.
  intros H0 Hs. induction Hs as [|s t s' _ IH Hp]; [exact H0|].
  exact (inv_sistema_passo s t s' IH Hp).
Qed.

Lemma inv_alcancavel s : alcancavel s -> inv_sistema s.
Proof. apply inv_alcancavel_de, inv_sistema_inicial. Qed.

(** ** The threads run the methods

    The steps of the coordinator between lines 50 and 65 are
    [iniciar_rodada], and the steps of a player at lines 131 and 116 are
    [verificar_eliminacao], when no other thread runs in between. *)

Lemma executa_app sched1 : forall sched2 s s1,
  executa sched1 s = Some s1 -> executa (sched1 ++ sched2) s = executa sched2 s1.
Proof.
  induction sched1 as [|t sched1 IH]; intros sched2 s s1 H; simpl in *.
  - inversion H. reflexivity.
  - destruct (passo t s) as [s0|]; [|discriminate]. apply IH, H.
Qed.

Lemma coordenador_esgota s esgotar : forall w js,
  cadeira_sem w = s ->
  exists n,
    executa (replicate n TCoordenador) (MkSistema w js (CEsgota esgotar)) =
    Some (MkSistema (com_sem (fst (esgotar_loop s esgotar)) w) js CRepoe).
Proof.
  funelim (esgotar_loop s esgotar); intros w js Hw; clear Heqcall.
  - destruct (H0 (com_sem s' w) js eq_refl) as [n Hn].
    exists (S n). simpl. rewrite Hw, H. exact Hn.
  - exists 1%nat. simpl. rewrite Hw, H. reflexivity.
Qed.

Lemma coordenador_iniciar_rodada w js :
  exists n,
    executa (replicate n TCoordenador) (MkSistema w js CCadeiras) =
    Some (MkSistema (iniciar_rodada w) js CDorme1).
Proof.
  destruct (coordenador_esgota (cadeira_sem (rodada_cadeiras w)) 0
              (rodada_cadeiras w) js eq_refl) as [n Hn].
  exists (1 + (n + 3))%nat. rewrite !replicate_add.
  rewrite (executa_app _ _ _ (MkSistema (rodada_cadeiras w) js (CEsgota 0))) by reflexivity.
  rewrite (executa_app _ _ _ _ Hn). reflexivity.
Qed.

Lemma jogador_verificar_eliminacao s i j :
  jogadores_objs s !! i = Some (MkThread j JVerifica) ->
  jogo_mutex_ocupado (coordenador s) = false ->
  exists n s',
    executa (replicate n (TJogador i)) s = Some s' /\
    mundo s' = verificar_eliminacao j (mundo s) /\
    jogadores_objs s' !! i = Some (MkThread j JRetorno).
Proof.
  intros Hi Hm. assert (Hlt : (i < length (jogadores_objs s))%nat)
    by (apply lookup_lt_Some in Hi; exact Hi).
  unfold verificar_eliminacao. destruct (eliminado j) eqn:He.
  - exists 2%nat. eexists. simpl. rewrite Hi. unfold passo_jogador at 1. simpl.
    rewrite He, Hm. simpl. rewrite list_lookup_insert_eq by exact Hlt.
    unfold passo_jogador. simpl.
    split; [reflexivity | split; [reflexivity |]].
    simpl. apply list_lookup_insert_eq. rewrite length_insert. exact Hlt.
  - exists 1%nat. eexists. simpl. rewrite Hi. unfold passo_jogador. simpl.
    rewrite He. split; [reflexivity | split; [reflexivity |]].
    simpl. apply list_lookup_insert_eq. exact Hlt.
Qed.

(** ** [jogadores_restantes] over the game *)

Lemma passo_restantes s t s' :
  inv_sistema s -> passo t s = Some s' ->
  jogadores_restantes (jogo (mundo s')) =
  jogadores_restantes (jogo (mundo s)) - (if passo_elimina t s then 1 else 0).
Proof.
  intros Hinv Hp.
  pose proof (inv_sistema_restantes s Hinv) as Hrange.
  destruct Hinv as (Hlen & Hjs & Hr).
  destruct t as [|i]; simpl in *.
  - destruct (passo_coordenador (coordenador s) (mundo s)) as [[c' w']|] eqn:Hc; [|discriminate].
    inversion Hp; subst; clear Hp. cbn [mundo].
    destruct (passo_coordenador_local _ _ _ _ Hc) as (Hr' & _). lia.
  - destruct (jogadores_objs s !! i) as [tj|] eqn:Hi; [|discriminate].
    destruct (passo_jogador _ tj (mundo s)) as [[tj' w']|] eqn:Hj; [|discriminate].
    inversion Hp; subst; clear Hp. cbn [mundo].
    destruct (Hjs i tj Hi) as [_ Hloc].
    assert (Hint : INT_MIN < jogadores_restantes (jogo (mundo s)) <= INT_MAX)
      by (unfold INT_MIN, INT_MAX, NUM_JOGADORES in *; lia).
    destruct (passo_jogador_local _ _ _ _ _ Hj Hloc Hint) as (_ & _ & Hr' & Hd & _).
    rewrite Hr', Hd. reflexivity.
Qed.

Lemma restantes_monotono s s' :
  inv_sistema s -> alcancavel_de s s' ->
  jogadores_restantes (jogo (mundo s')) <= jogadores_restantes (jogo (mundo s)).
Proof.
  intros Hinv Hs. induction Hs as [|s1 t s2 Hs1 IH Hp]; [lia|].
  rewrite (passo_restantes s1 t s2 (inv_alcancavel_de s s1 Hinv Hs1) Hp).
  destruct (passo_elimina t s1); lia.
Qed.

(** C8.  Over the whole game [jogadores_restantes] never increases: a later
    state never has more players than an earlier one, a step that is a call
    of [eliminar_jogador] lowers it by exactly 1 and every other step leaves
    it unchanged; and in any state of the game no method of the game object
    would raise it: [eliminar_jogador] lowers it by exactly 1, the others
    leave it as it is. *)
Theorem jogadores_restantes_nao_aumenta s s' t s'' :
  alcancavel s ->
  alcancavel_de s s' ->
  passo t s' = Some s'' ->
  jogadores_restantes (jogo (mundo s')) <= jogadores_restantes (jogo (mundo s)) /\
  jogadores_restantes (jogo (mundo s'')) <= jogadores_restantes (jogo (mundo s')) /\
  jogadores_restantes (jogo (mundo s'')) =
    jogadores_restantes (jogo (mundo s')) - (if passo_elimina t s' then 1 else 0) /\
  (forall x, jogadores_restantes (jogo (eliminar_jogador x (mundo s'))) =
             jogadores_restantes (jogo (mundo s')) - 1) /\
  jogadores_restantes (jogo (iniciar_rodada (mundo s'))) =
    jogadores_restantes (jogo (mundo s')) /\
  jogadores_restantes (jogo (parar_musica (mundo s'))) =
    jogadores_restantes (jogo (mundo s')) /\
  jogadores_restantes (jogo (exibir_estado (mundo s'))) =
    jogadores_restantes (jogo (mundo s')).
Proof.
  intros Hs Hs' Hp.
  pose proof (inv_alcancavel s Hs) as Hinv.
  pose proof (inv_alcancavel_de s s' Hinv Hs') as Hinv'.
  pose proof (passo_restantes s' t s'' Hinv' Hp) as Hstep.
  pose proof (inv_sistema_restantes s' Hinv') as Hrange.
  split; [apply restantes_monotono; assumption |].
  split; [rewrite Hstep; destruct (passo_elimina t s'); lia |].
  split; [exact Hstep |].
  split; [| split; [apply iniciar_rodada_restantes | split; reflexivity]].
  intros x. rewrite eliminar_jogador_restantes. apply int_dec_exact.
  unfold INT_MIN, INT_MAX, NUM_JOGADORES in *. lia.
Qed.

Lemma estado_antes_de_eliminar_alcancavel : alcancavel estado_antes_de_eliminar.
Proof. apply (executa_alcancavel (take 33 sched_trava)). vm_compute. reflexivity. Qed.

Lemma jogadores_restantes_nao_aumenta_witness :
  exists s'',
    passo (TJogador 2) estado_antes_de_eliminar = Some s'' /\
    jogadores_restantes (jogo (mundo s'')) =
      jogadores_restantes (jogo (mundo estado_antes_de_eliminar)) - 1.
Proof.
  destruct (passo (TJogador 2) estado_antes_de_eliminar) as [s''|] eqn:Hp;
    [| vm_compute in Hp; discriminate].
  exists s''. split; [reflexivity|].
  exact (proj1 (proj2 (proj2 (jogadores_restantes_nao_aumenta
           sistema_inicial estado_antes_de_eliminar (TJogador 2) s''
           (alc_refl sistema_inicial) estado_antes_de_eliminar_alcancavel Hp)))).
Defined.

(** ** Claims on the semaphore between two refills *)

Lemma passo_aquisicao s t s' :
  passo_libera t s = false -> passo t s = Some s' ->
  sem_ok (cadeira_sem (mundo s)) ->
  counter (cadeira_sem (mundo s')) =
    counter (cadeira_sem (mundo s)) - (if passo_adquire t s then 1 else 0) /\
  sem_ok (cadeira_sem (mundo s')).
Proof.
  unfold sem_ok, passo_adquire. intros Hl Hp Hs.
  destruct s as [[g [p] mp ja out] js c].
  destruct t as [|i]; simpl in *.
  - unfold passo_coordenador, rodada_cadeiras, rodada_musica, rodada_anuncia,
      try_acquire, getJogadoresRestantes in *.
    destruct c; try discriminate; simpl in *;
      try destruct (1 <? jogadores_restantes g); try destruct (1 <? cadeiras g);
      try destruct (0 <? p) eqn:E;
      inversion Hp; subst; simpl;
      try apply Z.ltb_lt in E; try apply Z.ltb_ge in E; split; lia.
  - destruct (js !! i) as [[[x e] pc]|]; [|discriminate].
    unfold passo_jogador, eliminar_jogador, try_acquire in *.
    simpl in *.
    destruct pc, e, ja, mp, (jogo_mutex_ocupado c); simpl in *;
      try destruct (0 <? p) eqn:E; simpl in *;
      try discriminate; inversion Hp; subst; simpl;
      try apply Z.ltb_lt in E; try apply Z.ltb_ge in E; split; lia.
Qed.

Lemma conta_passos_senta sched : forall s,
  0 <= conta_passos passo_senta sched s <= conta_passos passo_adquire sched s.
Proof.
  induction sched as [|t sched IH]; intros s; simpl; [lia|].
  assert (H : 0 <= (if passo_senta t s then 1 else 0) <=
              (if passo_adquire t s then 1 else 0)).
  { destruct t; simpl; destruct (passo_adquire _ s); lia. }
  destruct (passo t s) as [s'|]; [specialize (IH s')|]; lia.
Qed.

(** C3.  From a semaphore holding [p] permits, as long as there is no refill
    and no sweep, whatever the threads do and in whatever order:
    the counter is [p] less one for each call of [try_acquire] that returned
    true, and it never goes below zero, so at most [p] calls return true, the
    claims of the players among them.  A player at line 106 always has its
    step (it never waits): on an empty semaphore the claim fails, the
    semaphore stays as it is and the player is marked eliminated; otherwise
    the claim succeeds and takes exactly one permit.  The method
    [tentar_ocupar_cadeira] as a whole does the same and prints on success. *)
Theorem cadeiras_nunca_excedidas sched s0 s :
  sem_ok (cadeira_sem (mundo s0)) ->
  executa_sem_liberar sched s0 = Some s ->
  counter (cadeira_sem (mundo s)) =
    counter (cadeira_sem (mundo s0)) - conta_passos passo_adquire sched s0 /\
  0 <= counter (cadeira_sem (mundo s)) /\
  0 <= conta_passos passo_senta sched s0 <= conta_passos passo_adquire sched s0 /\
  conta_passos passo_adquire sched s0 <= counter (cadeira_sem (mundo s0)) /\
  (forall i tj, jogadores_objs s !! i = Some tj -> pcj tj = JTenta ->
     passo (TJogador i) s =
       Some (if counter (cadeira_sem (mundo s)) =? 0
             then MkSistema (mundo s)
                    (<[i := MkThread (MkJogador (id (obj tj)) true) JVerifica]>
                       (jogadores_objs s))
                    (coordenador s)
             else MkSistema
                    (com_sem (MkSem (counter (cadeira_sem (mundo s)) - 1)) (mundo s))
                    (<[i := MkThread (obj tj) JSentou]> (jogadores_objs s))
                    (coordenador s))) /\
  (forall j, tentar_ocupar_cadeira j (mundo s) =
     if counter (cadeira_sem (mundo s)) =? 0
     then (MkJogador (id j) true, mundo s)
     else (j, cout (MsgSentou (id j))
                (com_sem (MkSem (counter (cadeira_sem (mundo s)) - 1)) (mundo s)))).
Proof.
  intros H0 Hs.
  assert (Hcount : counter (cadeira_sem (mundo s)) =
                     counter (cadeira_sem (mundo s0)) - conta_passos passo_adquire sched s0 /\
                   sem_ok (cadeira_sem (mundo s))).
  { revert s0 H0 Hs. induction sched as [|t sched IH]; intros s0 H0 Hs; simpl in *.
    - inversion Hs; subst. split; [lia | exact H0].
    - destruct (passo_libera t s0) eqn:Hl; [discriminate|].
      destruct (passo t s0) as [s1|] eqn:Hp; [|discriminate].
      destruct (passo_aquisicao s0 t s1 Hl Hp H0) as [Hc Hok].
      destruct (IH s1 Hok Hs) as [IHc IHok]. split; [lia | exact IHok]. }
  destruct Hcount as [Hc Hok]. unfold sem_ok in Hok.
  split; [exact Hc | split; [exact Hok | split; [apply conta_passos_senta | split; [lia |]]]].
  destruct s as [[g [p] mp ja out] js c]. simpl in *.
  assert (Hz : (p =? 0) = negb (0 <? p)).
  { destruct (p =? 0) eqn:E1, (0 <? p) eqn:E2; simpl; try reflexivity;
      [apply Z.eqb_eq in E1; apply Z.ltb_lt in E2 | apply Z.eqb_neq in E1; apply Z.ltb_ge in E2];
      lia. }
  split.
  - intros i [[x e] pc] Hi Hpc. simpl in Hpc. subst pc.
    unfold passo. simpl. rewrite Hi. unfold passo_jogador, try_acquire. simpl.
    rewrite Hz. destruct (0 <? p); reflexivity.
  - intros j. unfold tentar_ocupar_cadeira, try_acquire. simpl.
    rewrite Hz. destruct (0 <? p); reflexivity.
Qed.

Lemma cadeiras_nunca_excedidas_witness :
  let sched := drop 12 (take 32 sched_trava) in
  sem_ok (cadeira_sem (mundo estado_musica_parou)) /\
  executa_sem_liberar sched estado_musica_parou = Some estado_sem_cadeira /\
  conta_passos passo_senta sched estado_musica_parou = 2 /\
  counter (cadeira_sem (mundo estado_sem_cadeira)) =
    counter (cadeira_sem (mundo estado_musica_parou)) -
    conta_passos passo_adquire sched estado_musica_parou.
Proof.
  set (sched := drop 12 (take 32 sched_trava)).
  assert (H1 : sem_ok (cadeira_sem (mundo estado_musica_parou)))
    by (vm_compute; discriminate).
  assert (H2 : executa_sem_liberar sched estado_musica_parou = Some estado_sem_cadeira)
    by (vm_compute; reflexivity).
  split; [exact H1 | split; [exact H2 | split; [vm_compute; reflexivity |]]].
  exact (proj1 (cadeiras_nunca_excedidas sched _ _ H1 H2)).
Defined.

(** ** A player without a chair *)

(** A step of a player keeps its [id] and never clears [eliminado]. *)
Lemma passo_jogador_obj livre tj w tj' w' :
  passo_jogador livre tj w = Some (tj', w') ->
  id (obj tj') = id (obj tj) /\
  (eliminado (obj tj) = true -> eliminado (obj tj') = true).
Proof.
  destruct tj as [[x e] pc]. unfold passo_jogador, tentar_ocupar_cadeira. simpl.
  destruct pc; simpl;
    try destruct (musica_parada w || negb (jogo_ativo w));
    try destruct (try_acquire (cadeira_sem w)) as [[|] sem'];
    try destruct e; try destruct livre;
    intros H; inversion H; subst; simpl; auto.
Qed.

Lemma passo_preserva_eliminado s t s' i x pc :
  passo t s = Some s' ->
  jogadores_objs s !! i = Some (MkThread (MkJogador x true) pc) ->
  exists pc', jogadores_objs s' !! i = Some (MkThread (MkJogador x true) pc').
Proof.
  intros Hp Hi. destruct t as [|k]; simpl in Hp.
  - destruct (passo_coordenador (coordenador s) (mundo s)) as [[c' w']|]; [|discriminate].
    inversion Hp; subst. simpl. eauto.
  - destruct (jogadores_objs s !! k) as [tk|] eqn:Hk; [|discriminate].
    destruct (passo_jogador _ tk (mundo s)) as [[tk' w']|] eqn:Hj; [|discriminate].
    inversion Hp; subst; clear Hp. simpl.
    destruct (decide (i = k)) as [->|Hne].
    + rewrite list_lookup_insert_eq by (apply lookup_lt_Some in Hk; exact Hk).
      rewrite Hi in Hk. inversion Hk; subst.
      destruct (passo_jogador_obj _ _ _ _ _ Hj) as [Hid He]. simpl in *.
      destruct tk' as [[x' e'] pc']. simpl in *. subst x'. rewrite He by reflexivity.
      eauto.
    + rewrite list_lookup_insert_ne by congruence. eauto.
Qed.

(** A thread that has left [joga] stays out, whatever the others do. *)
Lemma jogador_fim_permanente s s' i j :
  jogadores_objs s !! i = Some (MkThread j JFim) ->
  alcancavel_de s s' ->
  jogadores_objs s' !! i = Some (MkThread j JFim).
Proof.
  intros Hi Hs. induction Hs as [|s1 t s2 _ IH Hp]; [exact Hi|].
  destruct t as [|k]; simpl in Hp.
  - destruct (passo_coordenador (coordenador s1) (mundo s1)) as [[c' w']|]; [|discriminate].
    inversion Hp; subst. exact IH.
  - destruct (jogadores_objs s1 !! k) as [tk|] eqn:Hk; [|discriminate].
    destruct (passo_jogador _ tk (mundo s1)) as [[tk' w']|] eqn:Hj; [|discriminate].
    inversion Hp; subst; clear Hp. simpl.
    destruct (decide (i = k)) as [->|Hne].
    + rewrite IH in Hk. inversion Hk; subst. discriminate.
    + rewrite list_lookup_insert_ne by congruence. exact IH.
Qed.

(** C5.  A player whose claim at line 130 fails is marked eliminated and goes
    to line 131.  From then on, whatever the other threads do, it is never at
    line 130 again; it calls [eliminar_jogador] with its own id (the step of
    line 115, after which the count of its eliminations is 1 for good),
    clears [jogo_ativo] (line 116) and returns from [joga] (line 133), after
    which it takes no step at all and stays out for good. *)
Theorem jogador_sem_cadeira_e_eliminado s i tj :
  alcancavel s ->
  jogadores_objs s !! i = Some tj ->
  pcj tj = JTenta ->
  fst (try_acquire (cadeira_sem (mundo s))) = false ->
  exists s1,
    passo (TJogador i) s = Some s1 /\
    jogadores_objs s1 !! i = Some (MkThread (MkJogador (id (obj tj)) true) JVerifica) /\
    forall s', alcancavel_de s1 s' ->
      exists pc',
        jogadores_objs s' !! i = Some (MkThread (MkJogador (id (obj tj)) true) pc') /\
        match pc' with
        | JVerifica =>
            eliminacoes (id (obj tj)) (saida (mundo s')) = 0 /\
            (jogo_mutex_ocupado (coordenador s') = false ->
             passo (TJogador i) s' =
               Some (MkSistema (eliminar_jogador (id (obj tj)) (mundo s'))
                      (<[i := MkThread (MkJogador (id (obj tj)) true) JDesativa]>
                         (jogadores_objs s'))
                      (coordenador s')))
        | JDesativa =>
            eliminacoes (id (obj tj)) (saida (mundo s')) = 1 /\
            passo (TJogador i) s' =
              Some (MkSistema (com_jogo_ativo false (mundo s'))
                     (<[i := MkThread (MkJogador (id (obj tj)) true) JRetorno]>
                        (jogadores_objs s'))
                     (coordenador s'))
        | JRetorno =>
            eliminacoes (id (obj tj)) (saida (mundo s')) = 1 /\
            jogo_ativo (mundo s') = false /\
            passo (TJogador i) s' =
              Some (MkSistema (mundo s')
                     (<[i := MkThread (MkJogador (id (obj tj)) true) JFim]>
                        (jogadores_objs s'))
                     (coordenador s'))
        | JFim =>
            eliminacoes (id (obj tj)) (saida (mundo s')) = 1 /\
            jogo_ativo (mundo s') = false /\
            passo (TJogador i) s' = None /\
            forall s'', alcancavel_de s' s'' ->
              jogadores_objs s'' !! i = Some (MkThread (MkJogador (id (obj tj)) true) JFim)
        | _ => False
        end.
Proof.
  intros Hs Hi Hpc Hfail.
  destruct tj as [[x e] pc]. simpl in Hpc. subst pc. simpl.
  assert (Hp : passo (TJogador i) s =
               Some (MkSistema (mundo s)
                       (<[i := MkThread (MkJogador x true) JVerifica]> (jogadores_objs s))
                       (coordenador s))).
  { unfold passo. rewrite Hi. unfold passo_jogador, tentar_ocupar_cadeira. simpl.
    destruct (try_acquire (cadeira_sem (mundo s))) as [ok sem'] eqn:Ht.
    simpl in Hfail. subst ok. apply try_acquire_false in Ht as [_ ->].
    destruct s as [[g sem mp ja out] js c]. reflexivity. }
  eexists. split; [exact Hp | split].
  { simpl. apply list_lookup_insert_eq. apply lookup_lt_Some in Hi. exact Hi. }
  set (s1 := MkSistema (mundo s)
               (<[i := MkThread (MkJogador x true) JVerifica]> (jogadores_objs s))
               (coordenador s)) in *.
  assert (Hs1 : alcancavel s1) by exact (alc_passo _ s (TJogador i) s1 Hs Hp).
  intros s' Hs'.
  assert (Hlk : exists pc', jogadores_objs s' !! i = Some (MkThread (MkJogador x true) pc')).
  { induction Hs' as [|s2 t s3 _ IH Hp3].
    - exists JVerifica. simpl. apply list_lookup_insert_eq.
      apply lookup_lt_Some in Hi. exact Hi.
    - destruct IH as [pc2 H2]. exact (passo_preserva_eliminado s2 t s3 i x pc2 Hp3 H2). }
  destruct Hlk as [pc' Hlk]. exists pc'. split; [exact Hlk|].
  pose proof (inv_alcancavel s' (alcancavel_de_trans _ _ _ Hs1 Hs')) as (_ & Hjs & _).
  destruct (Hjs i _ Hlk) as [_ [Hcount Hloc]].
  unfold reportou in Hcount. simpl in Hcount, Hloc.
  unfold passo. rewrite Hlk. unfold passo_jogador. simpl.
  destruct pc'; try discriminate; simpl; auto.
  - split; [exact Hcount|]. intros Hm. rewrite Hm. reflexivity.
  - split; [exact Hcount | split; [auto | split; [reflexivity |]]].
    intros s'' Hs''. exact (jogador_fim_permanente s' s'' i _ Hlk Hs'').
Qed.

Lemma estado_sem_cadeira_alcancavel : alcancavel estado_sem_cadeira.
Proof. apply (executa_alcancavel (take 32 sched_trava)). vm_compute. reflexivity. Qed.

Lemma jogador_sem_cadeira_e_eliminado_witness :
  jogadores_objs estado_sem_cadeira !! 2%nat = Some (MkThread (MkJogador 3 false) JTenta) /\
  fst (try_acquire (cadeira_sem (mundo estado_sem_cadeira))) = false /\
  exists s1, passo (TJogador 2) estado_sem_cadeira = Some s1 /\
             jogadores_objs s1 !! 2%nat = Some (MkThread (MkJogador 3 true) JVerifica).
Proof.
  assert (H1 : jogadores_objs estado_sem_cadeira !! 2%nat =
               Some (MkThread (MkJogador 3 false) JTenta)) by reflexivity.
  assert (H2 : fst (try_acquire (cadeira_sem (mundo estado_sem_cadeira))) = false)
    by reflexivity.
  split; [exact H1 | split; [exact H2 |]].
  destruct (jogador_sem_cadeira_e_eliminado estado_sem_cadeira 2
              (MkThread (MkJogador 3 false) JTenta)
              estado_sem_cadeira_alcancavel H1 eq_refl H2) as (s1 & Hp & Hl & _).
  exists s1. split; [exact Hp | exact Hl].
Defined.

(** ** Termination of the game *)

Lemma passo_coordenador_segue c w : c <> CFim -> is_Some (passo_coordenador c w).
Proof.
  intros Hc. destruct c; simpl; try (eexists; reflexivity); [| congruence].
  destruct (try_acquire (cadeira_sem w)). eexists; reflexivity.
Qed.

Lemma inv_trava_passo s t s' : inv_trava s -> passo t s = Some s' -> inv_trava s'.
Proof.
  intros (Hall & Hr & Hc) Hp. destruct t as [|i]; simpl in Hp.
  - destruct s as [[[n c r] [p] mp ja out] js pc].
    unfold inv_trava, todos_jogadores_sairam, sem_max, NUM_JOGADORES in *. simpl in *.
    subst r.
    destruct pc; simpl in Hp; try contradiction.
    + inversion Hp; subst; simpl. auto.
    + unfold rodada_cadeiras in Hp. simpl in Hp.
      assert (Hc12 : c = 1 \/ c = 2) by lia.
      destruct Hc12; subst c; inversion Hp; subst; simpl;
        (split; [exact Hall | split; [reflexivity | split; [reflexivity | lia]]]).
    + unfold try_acquire in Hp. simpl in Hp.
      destruct (0 <? p) eqn:E; inversion Hp; subst; simpl;
        [apply Z.ltb_lt in E | apply Z.ltb_ge in E];
        (split; [exact Hall | split; [reflexivity | lia]]).
    + destruct Hc as [-> ->]. inversion Hp; subst; simpl. auto.
    + inversion Hp; subst; simpl. auto.
    + inversion Hp; subst; simpl. auto.
    + inversion Hp; subst; simpl. auto.
    + inversion Hp; subst; simpl. auto.
    + inversion Hp; subst; simpl. auto.
    + inversion Hp; subst; simpl. auto.
    + destruct Hc as [-> ->]. inversion Hp; subst; simpl.
      split; [exact Hall | split; [reflexivity | unfold NUM_JOGADORES; lia]].
  - destruct (jogadores_objs s !! i) as [tj|] eqn:Hi; [|discriminate].
    unfold todos_jogadores_sairam in Hall.
    rewrite Forall_lookup in Hall. specialize (Hall i tj Hi).
    destruct tj as [j pc]. simpl in Hall. subst pc. discriminate.
Qed.

Lemma estado_travado_alcancavel : alcancavel estado_travado.
Proof. apply (executa_alcancavel sched_trava). vm_compute. reflexivity. Qed.

(** C2 (the claim fails on the code).  The claim says the simulation always
    ends, with [jogadores_restantes = 1].  Two runs of the program as written
    (4 players):

    - [sched_trava] leads to a state in which every player has left [joga]
      and [jogadores_restantes] is 3; from there on, in every continuation,
      no player takes a step, the count stays 3, the semaphore stays within
      its bound, and the coordinator always has a next step and never leaves
      its loop: [iniciar_jogo] does not return;
    - [sched_zero] ends with every thread finished and
      [jogadores_restantes = 0]. *)
Theorem simulacao_pode_nao_terminar :
  (executa sched_trava sistema_inicial = Some estado_travado /\
   todos_jogadores_sairam estado_travado /\
   jogadores_restantes (jogo (mundo estado_travado)) = 3 /\
   forall s', alcancavel_de estado_travado s' ->
     todos_jogadores_sairam s' /\
     (forall i, passo (TJogador i) s' = None) /\
     jogadores_restantes (jogo (mundo s')) = 3 /\
     0 <= counter (cadeira_sem (mundo s')) <= sem_max /\
     match coordenador s' with
     | CRepoe => release_pre (cadeiras (jogo (mundo s'))) (cadeira_sem (mundo s'))
     | CLibera => release_pre (NUM_JOGADORES - 1) (cadeira_sem (mundo s'))
     | _ => True
     end /\
     coordenador s' <> CFim /\
     is_Some (passo TCoordenador s')) /\
  (exists s, executa sched_zero sistema_inicial = Some s /\
     todos_jogadores_sairam s /\
     coordenador s = CFim /\
     jogadores_restantes (jogo (mundo s)) = 0).
Proof.
  split.
  - split; [vm_compute; reflexivity |].
    assert (H0 : inv_trava estado_travado).
    { split; [repeat constructor | split; [reflexivity |]].
      vm_compute. repeat split; discriminate. }
    split; [apply H0 | split; [reflexivity |]].
    intros s' Hs'.
    assert (Hinv : inv_trava s').
    { induction Hs' as [|s1 t s2 _ IH Hp]; [exact H0|].
      exact (inv_trava_passo s1 t s2 IH Hp). }
    destruct Hinv as (Ha & Hr & Hc).
    assert (Hfim : coordenador s' <> CFim)
      by (intros E; rewrite E in Hc; exact Hc).
    split; [exact Ha | split; [| split; [exact Hr | split; [| split; [| split; [exact Hfim |]]]]]].
    + intros i. unfold passo.
      destruct (jogadores_objs s' !! i) as [tj|] eqn:Hi; [|reflexivity].
      unfold todos_jogadores_sairam in Ha. rewrite Forall_lookup in Ha.
      specialize (Ha i tj Hi). destruct tj as [j pc]. simpl in Ha. subst pc.
      reflexivity.
    + unfold sem_max, NUM_JOGADORES in *. simpl in Hc.
      destruct (coordenador s'); try contradiction; lia.
    + unfold release_pre, sem_max, NUM_JOGADORES in *. simpl in Hc.
      destruct (coordenador s'); try exact I; lia.
    + unfold passo.
      destruct (passo_coordenador_segue (coordenador s') (mundo s') Hfim) as [[c' w'] ->].
      eexists; reflexivity.
  - eexists. split; [vm_compute; reflexivity |].
    split; [repeat constructor | split; reflexivity].
Qed.

(** * Further properties of the program *)

Lemma conta_app p out out' : conta p (out ++ out') = conta p out + conta p out'.
Proof. induction out as [|m out IH]; simpl; [lia | rewrite IH; lia]. Qed.


(** What a step of a player leaves alone: players never touch the chair
    count or the music flag, never set [jogo_ativo], never add a permit, and
    print nothing but their own two lines. *)
Lemma passo_jogador_quadro livre tj w tj' w' :
  passo_jogador livre tj w = Some (tj', w') ->
  num_jogadores (jogo w') = num_jogadores (jogo w) /\
  cadeiras (jogo w') = cadeiras (jogo w) /\
  musica_parada w' = musica_parada w /\
  (jogo_ativo w = false -> jogo_ativo w' = false) /\
  conta e_rodada (saida w') = conta e_rodada (saida w) /\
  conta e_parada (saida w') = conta e_parada (saida w) /\
  conta e_vencedor (saida w') = conta e_vencedor (saida w) /\
  conta e_eliminacao (saida w') =
    conta e_eliminacao (saida w) +
    (if bool_decide (pcj tj = JVerifica) && eliminado (obj tj) then 1 else 0) /\
  counter (cadeira_sem w') <= counter (cadeira_sem w) /\
  (0 <= counter (cadeira_sem w) -> 0 <= counter (cadeira_sem w')).
Proof.
  intros Hp. destruct tj as [[x e] pc]. destruct w as [[n c r] sem mp ja out].
  unfold passo_jogador, tentar_ocupar_cadeira, try_acquire, eliminar_jogador in Hp.
  simpl in *.
  destruct pc, e, ja, mp, livre; simpl in *;
    try destruct (0 <? counter sem) eqn:E; simpl in *;
    try discriminate; inversion Hp; subst; clear Hp; simpl;
    rewrite ?conta_app; simpl; try apply Z.ltb_lt in E;
    (repeat split; try tauto; try congruence; try lia).
Qed.

(** What a step of the coordinator leaves alone. *)
Lemma passo_coordenador_quadro c w c' w' :
  passo_coordenador c w = Some (c', w') ->
  num_jogadores (jogo w') = num_jogadores (jogo w) /\
  jogadores_restantes (jogo w') = jogadores_restantes (jogo w) /\
  (jogo_ativo w = false -> jogo_ativo w' = false) /\
  sentados (saida w') = sentados (saida w) /\
  conta e_eliminacao (saida w') = conta e_eliminacao (saida w).
Proof.
  intros Hp. destruct w as [[n k r] sem mp ja out].
  unfold passo_coordenador, rodada_cadeiras, rodada_repoe, rodada_musica, rodada_anuncia,
    parar_musica, liberar_threads_eliminadas, try_acquire, getJogadoresRestantes in Hp.
  simpl in Hp.
  destruct c; simpl in Hp;
    try destruct (1 <? r); try destruct (1 <? k); try destruct (0 <? counter sem);
    inversion Hp; subst; simpl; rewrite ?conta_app, ?sentados_app; simpl;
    (repeat split; try tauto; try lia).
Qed.

Lemma passo_jogo_ativo s t s' :
  passo t s = Some s' -> jogo_ativo (mundo s) = false -> jogo_ativo (mundo s') = false.
Proof.
  intros Hp Ha. destruct t as [|i]; simpl in Hp.
  - destruct (passo_coordenador (coordenador s) (mundo s)) as [[c' w']|] eqn:Hc; [|discriminate].
    inversion Hp; subst. simpl. apply (passo_coordenador_quadro _ _ _ _ Hc), Ha.
  - destruct (jogadores_objs s !! i) as [tj|]; [|discriminate].
    destruct (passo_jogador _ tj (mundo s)) as [[tj' w']|] eqn:Hj; [|discriminate].
    inversion Hp; subst. simpl. apply (passo_jogador_quadro _ _ _ _ _ Hj), Ha.
Qed.

(** X1.  [jogo_ativo] is a one-way flag: no method and no thread ever sets it
    again, so once it is cleared it stays cleared in every later state. *)
Theorem jogo_ativo_nunca_volta s s' :
  alcancavel_de s s' ->
  jogo_ativo (mundo s) = false ->
  jogo_ativo (mundo s') = false.
Proof.
  intros Hs Ha. induction Hs as [|s1 t s2 _ IH Hp]; [exact Ha|].
  exact (passo_jogo_ativo s1 t s2 Hp IH).
Qed.

Lemma jogo_ativo_nunca_volta_witness :
  exists s', passo TCoordenador estado_travado = Some s' /\ jogo_ativo (mundo s') = false.
Proof.
  destruct (passo TCoordenador estado_travado) as [s'|] eqn:Hp;
    [| vm_compute in Hp; discriminate].
  exists s'. split; [reflexivity|].
  apply (jogo_ativo_nunca_volta estado_travado s').
  - exact (alc_passo _ _ _ _ (alc_refl estado_travado) Hp).
  - reflexivity.
Defined.

Lemma passo_conta_eliminacao s t s' :
  passo t s = Some s' ->
  conta e_eliminacao (saida (mundo s')) =
  conta e_eliminacao (saida (mundo s)) + (if passo_elimina t s then 1 else 0).
Proof.
  intros Hp. destruct t as [|i]; simpl in *.
  - destruct (passo_coordenador (coordenador s) (mundo s)) as [[c' w']|] eqn:Hc; [|discriminate].
    inversion Hp; subst. simpl.
    destruct (passo_coordenador_quadro _ _ _ _ Hc) as (_ & _ & _ & _ & He). lia.
  - destruct (jogadores_objs s !! i) as [tj|]; [|discriminate].
    destruct (passo_jogador _ tj (mundo s)) as [[tj' w']|] eqn:Hj; [|discriminate].
    inversion Hp; subst. simpl.
    apply (passo_jogador_quadro _ _ _ _ _ Hj).
Qed.

(** X2.  In every state of the running program the players still counted and
    the eliminations printed add up to [NUM_JOGADORES]; so, unlike at the
    bare interface of [eliminar_jogador], the count never leaves
    [0 .. NUM_JOGADORES]. *)
Theorem restantes_mais_eliminados s :
  alcancavel s ->
  jogadores_restantes (jogo (mundo s)) + conta e_eliminacao (saida (mundo s)) = NUM_JOGADORES /\
  0 <= jogadores_restantes (jogo (mundo s)) <= NUM_JOGADORES.
Proof.
  intros Hs. split; [| apply inv_sistema_restantes, inv_alcancavel, Hs].
  unfold alcancavel in Hs. induction Hs as [|s1 t s2 Hs1 IH Hp]; [reflexivity|].
  rewrite (passo_restantes s1 t s2 (inv_alcancavel s1 Hs1) Hp).
  rewrite (passo_conta_eliminacao s1 t s2 Hp). lia.
Qed.

Lemma estado_zero_alcancavel : alcancavel estado_zero.
Proof. apply (executa_alcancavel sched_zero). vm_compute. reflexivity. Qed.

Lemma restantes_mais_eliminados_witness :
  jogadores_restantes (jogo (mundo estado_zero)) = 0 /\
  jogadores_restantes (jogo (mundo estado_zero)) +
    conta e_eliminacao (saida (mundo estado_zero)) = NUM_JOGADORES.
Proof.
  split; [reflexivity|].
  exact (proj1 (restantes_mais_eliminados estado_zero estado_zero_alcancavel)).
Defined.

Lemma eliminacoes_nonneg x out : 0 <= eliminacoes x out.
Proof.
  induction out as [|m out IH]; simpl; [lia|].
  destruct m; try exact IH. destruct (x =? jogador_id); lia.
Qed.

(** Only the ids of the players are ever printed as eliminated. *)
Lemma eliminacoes_fora s x :
  alcancavel s -> ~ (1 <= x <= NUM_JOGADORES) -> eliminacoes x (saida (mundo s)) = 0.
Proof.
  intros Hs Hx. unfold alcancavel in Hs.
  induction Hs as [|s1 t s2 Hs1 IH Hp]; [reflexivity|].
  pose proof (inv_alcancavel s1 Hs1) as Hinv.
  pose proof (inv_sistema_restantes s1 Hinv) as Hrange.
  destruct Hinv as (Hlen & Hjs & _).
  destruct t as [|i]; simpl in Hp.
  - destruct (passo_coordenador (coordenador s1) (mundo s1)) as [[c' w']|] eqn:Hc; [|discriminate].
    inversion Hp; subst. simpl.
    destruct (passo_coordenador_local _ _ _ _ Hc) as (_ & _ & He). rewrite He. exact IH.
  - destruct (jogadores_objs s1 !! i) as [tj|] eqn:Hi; [|discriminate].
    destruct (passo_jogador _ tj (mundo s1)) as [[tj' w']|] eqn:Hj; [|discriminate].
    inversion Hp; subst. simpl.
    destruct (Hjs i tj Hi) as [Hid Hloc].
    assert (Hint : INT_MIN < jogadores_restantes (jogo (mundo s1)) <= INT_MAX)
      by (unfold INT_MIN, INT_MAX, NUM_JOGADORES in *; lia).
    destruct (passo_jogador_local _ _ _ _ _ Hj Hloc Hint) as (_ & _ & _ & _ & _ & He & _).
    rewrite He; [exact IH|].
    apply lookup_lt_Some in Hi. rewrite Hlen in Hi.
    unfold NUM_JOGADORES in *. simpl in Hi. lia.
Qed.

(** X3.  No player is eliminated twice: in every state of the running
    program each id has at most one elimination line, and an id that is not
    a player's has none. *)
Theorem nenhum_jogador_eliminado_duas_vezes s x :
  alcancavel s ->
  0 <= eliminacoes x (saida (mundo s)) <= 1 /\
  (~ (1 <= x <= NUM_JOGADORES) -> eliminacoes x (saida (mundo s)) = 0).
Proof.
  intros Hs. split; [| apply eliminacoes_fora, Hs].
  destruct (decide (1 <= x <= NUM_JOGADORES)) as [Hx|Hx].
  - destruct (inv_alcancavel s Hs) as (Hlen & Hjs & _).
    assert (Hlt : (Z.to_nat (x - 1) < length (jogadores_objs s))%nat)
      by (rewrite Hlen; unfold NUM_JOGADORES in *; lia).
    apply lookup_lt_is_Some_2 in Hlt. destruct Hlt as [tj Hi].
    destruct (Hjs _ tj Hi) as [Hid [Hcount _]].
    replace x with (id (obj tj)) by lia.
    rewrite Hcount. apply reportou_bounds.
  - rewrite (eliminacoes_fora s x Hs Hx). lia.
Qed.

Lemma nenhum_jogador_eliminado_duas_vezes_witness :
  eliminacoes 3 (saida (mundo estado_zero)) = 1 /\
  0 <= eliminacoes 3 (saida (mundo estado_zero)) <= 1.
Proof.
  split; [reflexivity|].
  exact (proj1 (nenhum_jogador_eliminado_duas_vezes estado_zero 3 estado_zero_alcancavel)).
Defined.

(** ** The chairs and the semaphore over the rounds *)

Lemma rodadas_iniciadas_passo s t s' :
  passo t s = Some s' ->
  1 <= cadeiras (jogo (mundo s)) <= NUM_JOGADORES - 1 ->
  num_jogadores (jogo (mundo s')) = num_jogadores (jogo (mundo s)) /\
  rodadas_iniciadas s' =
    rodadas_iniciadas s + (match t, coordenador s with TCoordenador, CCadeiras => 1 | _, _ => 0 end) /\
  cadeiras (jogo (mundo s')) =
    match t, coordenador s with
    | TCoordenador, CCadeiras =>
        if 1 <? cadeiras (jogo (mundo s)) then cadeiras (jogo (mundo s)) - 1
        else cadeiras (jogo (mundo s))
    | _, _ => cadeiras (jogo (mundo s))
    end.
Proof.
  intros Hp Hc. unfold rodadas_iniciadas. destruct t as [|i]; simpl in Hp.
  - destruct s as [[[n k r] sem mp ja out] js c].
    unfold passo_coordenador, rodada_cadeiras, rodada_repoe, rodada_musica, rodada_anuncia,
      parar_musica, liberar_threads_eliminadas, try_acquire, getJogadoresRestantes in Hp.
    simpl in *.
    assert (Hw : int_wrap (k - 1) = k - 1)
      by (apply int_dec_exact; unfold INT_MIN, INT_MAX, NUM_JOGADORES in *; lia).
    destruct c; simpl in Hp;
      try destruct (1 <? r); try destruct (1 <? k); try destruct (0 <? counter sem);
      inversion Hp; subst; simpl; rewrite ?conta_app; simpl;
      (repeat split; try lia).
  - destruct (jogadores_objs s !! i) as [tj|]; [|discriminate].
    destruct (passo_jogador _ tj (mundo s)) as [[tj' w']|] eqn:Hj; [|discriminate].
    inversion Hp; subst. simpl.
    destruct (passo_jogador_quadro _ _ _ _ _ Hj) as (Hn & Hk & _ & _ & Hr & _).
    rewrite Hn, Hk, Hr. repeat split; lia.
Qed.

(** X4.  The chair count follows the rounds alone: in every state of the
    running program [cadeiras] is [NUM_JOGADORES - 1] lowered by one for each
    round begun, with the floor 1, whatever the players have done.  The
    rounds of a 4-player game are played with 2, 1, 1, ... chairs. *)
Theorem cadeiras_por_rodada s :
  alcancavel s ->
  cadeiras (jogo (mundo s)) = Z.max 1 (NUM_JOGADORES - 1 - rodadas_iniciadas s) /\
  1 <= cadeiras (jogo (mundo s)) <= NUM_JOGADORES - 1 /\
  num_jogadores (jogo (mundo s)) = NUM_JOGADORES.
Proof.
  intros Hs.
  assert (H : cadeiras (jogo (mundo s)) = Z.max 1 (NUM_JOGADORES - 1 - rodadas_iniciadas s) /\
              0 <= rodadas_iniciadas s /\
              num_jogadores (jogo (mundo s)) = NUM_JOGADORES).
  { unfold alcancavel in Hs. induction Hs as [|s1 t s2 _ IH Hp].
    - vm_compute. repeat split; discriminate.
    - destruct IH as (Hc & Hr & Hn).
      assert (Hb : 1 <= cadeiras (jogo (mundo s1)) <= NUM_JOGADORES - 1)
        by (unfold NUM_JOGADORES in *; lia).
      destruct (rodadas_iniciadas_passo s1 t s2 Hp Hb) as (Hn' & Hr' & Hc').
      rewrite Hn', Hr', Hc'. split; [| split; [| exact Hn]].
      + destruct t; [destruct (coordenador s1) |]; try (rewrite Hc; f_equal; lia).
        destruct (1 <? cadeiras (jogo (mundo s1))) eqn:E;
          [apply Z.ltb_lt in E | apply Z.ltb_ge in E]; lia.
      + destruct t; [destruct (coordenador s1) |]; lia. }
  destruct H as (Hc & Hr & Hn). unfold NUM_JOGADORES in *. repeat split; lia.
Qed.

Lemma cadeiras_por_rodada_witness :
  rodadas_iniciadas estado_travado = 1 /\
  cadeiras (jogo (mundo estado_travado)) = Z.max 1 (NUM_JOGADORES - 1 - 1).
Proof.
  split; [reflexivity|].
  exact (proj1 (cadeiras_por_rodada estado_travado estado_travado_alcancavel)).
Defined.

Lemma inv_semaforo_passo s t s' : inv_semaforo s -> passo t s = Some s' -> inv_semaforo s'.
Proof.
  intros [Hc Hp] Hs. destruct t as [|i]; simpl in Hs.
  - destruct s as [[[n k r] [p] mp ja out] js c].
    unfold inv_semaforo, NUM_JOGADORES in *. simpl in *.
    unfold passo_coordenador, rodada_cadeiras, rodada_repoe, rodada_musica, rodada_anuncia,
      parar_musica, liberar_threads_eliminadas, try_acquire, getJogadoresRestantes,
      NUM_JOGADORES in Hs.
    simpl in Hs.
    assert (Hw : int_wrap (k - 1) = k - 1)
      by (apply int_dec_exact; unfold INT_MIN, INT_MAX; lia).
    destruct c; simpl in Hs;
      try destruct (1 <? r); try destruct (1 <? k) eqn:Ek; try destruct (0 <? p) eqn:Ep;
      inversion Hs; subst; simpl; rewrite ?Hw;
      try apply Z.ltb_lt in Ek; try apply Z.ltb_ge in Ek;
      try apply Z.ltb_lt in Ep; try apply Z.ltb_ge in Ep;
      (repeat split; try lia).
  - destruct (jogadores_objs s !! i) as [tj|]; [|discriminate].
    destruct (passo_jogador _ tj (mundo s)) as [[tj' w']|] eqn:Hj; [|discriminate].
    inversion Hs; subst. unfold inv_semaforo in *. simpl.
    destruct (passo_jogador_quadro _ _ _ _ _ Hj) as (_ & Hk & _ & _ & _ & _ & _ & _ & Hle & Hge).
    rewrite Hk. split; [exact Hc|].
    destruct (coordenador s); lia.
Qed.

(** X5.  In every state of the running program the semaphore counter is
    between 0 and [NUM_JOGADORES + 1], and when the coordinator is about to
    refill (line 61) the semaphore is empty and the refill is within the
    bound the standard asks of [release]. *)
Theorem semaforo_limitado s :
  alcancavel s ->
  0 <= counter (cadeira_sem (mundo s)) <= NUM_JOGADORES + 1 /\
  (coordenador s = CRepoe ->
   counter (cadeira_sem (mundo s)) = 0 /\
   release_pre (cadeiras (jogo (mundo s))) (cadeira_sem (mundo s))).
Proof.
  intros Hs.
  assert (H : inv_semaforo s).
  { unfold alcancavel in Hs. induction Hs as [|s1 t s2 _ IH Hp].
    - vm_compute. repeat split; discriminate.
    - exact (inv_semaforo_passo s1 t s2 IH Hp). }
  destruct H as [Hc Hp]. unfold release_pre, sem_max, NUM_JOGADORES in *. simpl in Hp.
  split.
  - destruct (coordenador s); lia.
  - intros E. rewrite E in Hp. lia.
Qed.

Lemma semaforo_limitado_witness :
  counter (cadeira_sem (mundo estado_varrido)) = NUM_JOGADORES + 1 /\
  0 <= counter (cadeira_sem (mundo estado_varrido)) <= NUM_JOGADORES + 1.
Proof.
  split; [reflexivity|].
  apply (semaforo_limitado estado_varrido).
  apply (executa_alcancavel (replicate 14 TCoordenador)). vm_compute. reflexivity.
Defined.

(** ** The end of the game *)

Lemma vencedor_inv s :
  alcancavel s ->
  (0 < conta e_vencedor (saida (mundo s)) -> fora_do_laco (coordenador s) = true) /\
  (fora_do_laco (coordenador s) = true -> jogadores_restantes (jogo (mundo s)) <= 1).
Proof.
  intros Hs. unfold alcancavel in Hs.
  induction Hs as [|s1 t s2 Hs1 IH Hp]; [split; simpl; intros; [lia | discriminate]|].
  destruct IH as [IHv IHf].
  pose proof (passo_restantes s1 t s2 (inv_alcancavel s1 Hs1) Hp) as Hr.
  destruct t as [|i]; simpl in Hp, Hr.
  - clear Hr. destruct s1 as [[[n k r] sem mp ja out] js c].
    unfold passo_coordenador, rodada_cadeiras, rodada_repoe, rodada_musica, rodada_anuncia,
      parar_musica, liberar_threads_eliminadas, try_acquire, getJogadoresRestantes in Hp.
    simpl in *.
    destruct c; simpl in Hp;
      try destruct (1 <? r) eqn:Er; try destruct (1 <? k); try destruct (0 <? counter sem);
      inversion Hp; subst; simpl in *; rewrite ?conta_app; simpl;
      try apply Z.ltb_ge in Er;
      (split; intros H; try reflexivity; try lia; try discriminate;
       try (apply IHf; reflexivity);
       try (assert (Hv : 0 < conta e_vencedor out) by lia; specialize (IHv Hv); discriminate)).
  - destruct (jogadores_objs s1 !! i) as [tj|]; [|discriminate].
    destruct (passo_jogador _ tj (mundo s1)) as [[tj' w']|] eqn:Hj; [|discriminate].
    inversion Hp; subst. simpl in *.
    destruct (passo_jogador_quadro _ _ _ _ _ Hj) as (_ & _ & _ & _ & _ & _ & Hv & _).
    rewrite Hv. split; [exact IHv|].
    intros Hf. specialize (IHf Hf).
    destruct (bool_decide (pcj tj = JVerifica) && eliminado (obj tj)); lia.
Qed.

(** X6.  The coordinator leaves its loop, and the winner is announced, only
    when at most one player is still counted: from then on
    [jogadores_restantes] is 0 or 1. *)
Theorem vencedor_com_no_maximo_um s :
  alcancavel s ->
  fora_do_laco (coordenador s) = true \/ 0 < conta e_vencedor (saida (mundo s)) ->
  0 <= jogadores_restantes (jogo (mundo s)) <= 1.
Proof.
  intros Hs H.
  destruct (vencedor_inv s Hs) as [Hv Hf].
  pose proof (inv_sistema_restantes s (inv_alcancavel s Hs)) as Hr.
  assert (Hfora : fora_do_laco (coordenador s) = true) by (destruct H; auto).
  specialize (Hf Hfora). lia.
Qed.

Lemma vencedor_com_no_maximo_um_witness :
  fora_do_laco (coordenador estado_zero) = true /\
  0 <= jogadores_restantes (jogo (mundo estado_zero)) <= 1.
Proof.
  assert (H : fora_do_laco (coordenador estado_zero) = true) by reflexivity.
  split; [exact H|].
  exact (vencedor_com_no_maximo_um estado_zero estado_zero_alcancavel (or_introl H)).
Defined.

Lemma passo_jogador_fim livre tj w tj' w' :
  passo_jogador livre tj w = Some (tj', w') ->
  inv_jogador tj w ->
  pcj tj' = JFim ->
  jogo_ativo w' = false.
Proof.
  intros Hp [_ Hpc] Hfim. destruct tj as [[x e] pc]. destruct w as [g sem mp ja out].
  unfold passo_jogador, tentar_ocupar_cadeira, try_acquire in Hp. simpl in *.
  destruct pc, e, ja, mp, livre; simpl in *;
    try destruct (0 <? counter sem); simpl in *;
    try discriminate; inversion Hp; subst; simpl in *;
    try discriminate; auto.
Qed.

(** X7.  No thread leaves while the game is active: in every state of the
    running program in which the coordinator has returned from
    [iniciar_jogo], or some player has returned from [joga], [jogo_ativo] is
    false. *)
Theorem thread_terminada_jogo_inativo s :
  alcancavel s ->
  coordenador s = CFim \/
    (exists i tj, jogadores_objs s !! i = Some tj /\ pcj tj = JFim) ->
  jogo_ativo (mundo s) = false.
Proof.
  intros Hs. unfold alcancavel in Hs.
  induction Hs as [|s1 t s2 Hs1 IH Hp].
  - intros [H | (i & tj & Hi & Hfim)]; [discriminate|].
    do 4 (destruct i as [|i]; [inversion Hi; subst; discriminate |]). discriminate.
  - destruct (jogo_ativo (mundo s1)) eqn:Ea;
      [| intros _; exact (passo_jogo_ativo s1 t s2 Hp Ea)].
    destruct (inv_alcancavel s1 Hs1) as (_ & Hjs & _).
    destruct t as [|k]; simpl in Hp.
    + destruct (passo_coordenador (coordenador s1) (mundo s1)) as [[c' w']|] eqn:Hc;
        [|discriminate].
      inversion Hp; subst; clear Hp. simpl.
      intros [H | H]; [| exfalso; specialize (IH (or_intror H)); discriminate].
      subst c'. destruct (coordenador s1); simpl in Hc;
        try destruct (1 <? getJogadoresRestantes (mundo s1));
        try destruct (try_acquire (cadeira_sem (mundo s1))) as [[|] sem'];
        try discriminate; inversion Hc; reflexivity.
    + destruct (jogadores_objs s1 !! k) as [tk|] eqn:Hk; [|discriminate].
      destruct (passo_jogador _ tk (mundo s1)) as [[tk' w']|] eqn:Hj; [|discriminate].
      inversion Hp; subst; clear Hp. simpl.
      intros [H | (i & tj & Hi & Hfim)].
      * exfalso. specialize (IH (or_introl H)). discriminate.
      * destruct (decide (i = k)) as [->|Hne].
        -- rewrite list_lookup_insert_eq in Hi by (apply lookup_lt_Some in Hk; exact Hk).
           inversion Hi; subst.
           exact (passo_jogador_fim _ _ _ _ _ Hj (proj2 (Hjs k tk Hk)) Hfim).
        -- rewrite list_lookup_insert_ne in Hi by congruence.
           exfalso. assert (Hex : exists i tj, jogadores_objs s1 !! i = Some tj /\ pcj tj = JFim)
             by (exists i, tj; auto).
           specialize (IH (or_intror Hex)). discriminate.
Qed.

Lemma thread_terminada_jogo_inativo_witness :
  jogadores_objs estado_travado !! 0%nat = Some (MkThread (MkJogador 1 false) JFim) /\
  jogo_ativo (mundo estado_travado) = false.
Proof.
  assert (H : jogadores_objs estado_travado !! 0%nat = Some (MkThread (MkJogador 1 false) JFim))
    by reflexivity.
  split; [exact H|].
  apply (thread_terminada_jogo_inativo estado_travado estado_travado_alcancavel).
  right. exists 0%nat, (MkThread (MkJogador 1 false) JFim). split; [exact H | reflexivity].
Defined.

(** ** Before the music stops for the first time *)




(** ** Racing while the music is stopped *)

Lemma executa_jogador n : forall s i tj tj' w',
  jogadores_objs s !! i = Some tj ->
  passos_jogador n (negb (jogo_mutex_ocupado (coordenador s))) tj (mundo s) = Some (tj', w') ->
  executa (replicate n (TJogador i)) s =
    Some (MkSistema w' (<[i := tj']> (jogadores_objs s)) (coordenador s)).
Proof.
  induction n as [|n IH]; intros s i tj tj' w' Hi Hn; simpl in *.
  - inversion Hn; subst. rewrite list_insert_id by exact Hi. destruct s; reflexivity.
  - rewrite Hi.
    destruct (passo_jogador _ tj (mundo s)) as [[tj1 w1]|]; [|discriminate].
    rewrite (IH (MkSistema w1 (<[i := tj1]> (jogadores_objs s)) (coordenador s)) i tj1 tj' w').
    + simpl. rewrite list_insert_insert_eq. reflexivity.
    + simpl. apply list_lookup_insert_eq. apply lookup_lt_Some in Hi. exact Hi.
    + exact Hn.
Qed.

(** The steps of a player at lines 106-109, run with no other thread in
    between, are [tentar_ocupar_cadeira]; the two steps of the coordinator at
    lines 68-73 are [parar_musica]. *)
Lemma jogador_tentar_ocupar_cadeira s i j :
  jogadores_objs s !! i = Some (MkThread j JTenta) ->
  exists n,
    executa (replicate n (TJogador i)) s =
    Some (MkSistema (snd (tentar_ocupar_cadeira j (mundo s)))
            (<[i := MkThread (fst (tentar_ocupar_cadeira j (mundo s))) JVerifica]>
               (jogadores_objs s))
            (coordenador s)).
Proof.
  intros Hi. unfold tentar_ocupar_cadeira.
  destruct (try_acquire (cadeira_sem (mundo s))) as [[|] sem'] eqn:Ht.
  - exists 2%nat. eapply executa_jogador; [exact Hi |].
    unfold passos_jogador, passo_jogador. simpl. rewrite Ht. reflexivity.
  - exists 1%nat. eapply executa_jogador; [exact Hi |].
    unfold passos_jogador, passo_jogador. simpl. rewrite Ht. reflexivity.
Qed.

Lemma coordenador_parar_musica w js :
  executa (replicate 2 TCoordenador) (MkSistema w js CParaMusica) =
  Some (MkSistema (parar_musica w) js CDorme2).
Proof. reflexivity. Qed.

(** X9.  A seated player races again in the same round.  [musica_parada]
    stays true after a claim, so a player that has a chair goes round the
    loop of [joga], passes the wait at once and claims again: with two
    permits left, ten steps of one player alone (two claims, each with its
    line printed) take both of them, and the player prints that it sat down
    twice. *)
Theorem jogador_sentado_corre_de_novo s i j :
  jogadores_objs s !! i = Some (MkThread j JTenta) ->
  eliminado j = false ->
  musica_parada (mundo s) = true ->
  jogo_ativo (mundo s) = true ->
  2 <= counter (cadeira_sem (mundo s)) ->
  exists s',
    executa (replicate 10 (TJogador i)) s = Some s' /\
    jogadores_objs s' !! i = Some (MkThread j JVerifica) /\
    cadeira_sem (mundo s') = MkSem (counter (cadeira_sem (mundo s)) - 2) /\
    saida (mundo s') = saida (mundo s) ++ [MsgSentou (id j); MsgSentou (id j)] /\
    jogadores_restantes (jogo (mundo s')) = jogadores_restantes (jogo (mundo s)) /\
    jogo_ativo (mundo s') = true.
Proof.
  intros Hi He Hmp Hja Hc.
  destruct s as [[g [p] mp ja out] js c]. simpl in *. subst mp ja.
  destruct j as [x e]. simpl in He. subst e.
  assert (Hlt : (i < length js)%nat) by (apply lookup_lt_Some in Hi; exact Hi).
  assert (H1 : (0 <? p) = true) by (apply Z.ltb_lt; lia).
  assert (H2 : (0 <? p - 1) = true) by (apply Z.ltb_lt; lia).
  eexists. split.
  - eapply (executa_jogador 10 (MkSistema (MkMundo g (MkSem p) true true out) js c) i);
      [exact Hi |].
    unfold passos_jogador, passo_jogador, tentar_ocupar_cadeira, try_acquire. simpl.
    rewrite H1. simpl. rewrite H2. reflexivity.
  - simpl. split; [apply list_lookup_insert_eq; exact Hlt |].
    split; [f_equal; lia |].
    split; [rewrite <- app_assoc; reflexivity |].
    split; reflexivity.
Qed.

Lemma jogador_sentado_corre_de_novo_witness :
  jogadores_objs estado_na_corrida !! 0%nat = Some (MkThread (MkJogador 1 false) JTenta) /\
  2 <= counter (cadeira_sem (mundo estado_na_corrida)) /\
  exists s',
    executa (replicate 10 (TJogador 0)) estado_na_corrida = Some s' /\
    cadeira_sem (mundo s') = MkSem 0.
Proof.
  assert (H1 : jogadores_objs estado_na_corrida !! 0%nat =
               Some (MkThread (MkJogador 1 false) JTenta)) by reflexivity.
  assert (H2 : 2 <= counter (cadeira_sem (mundo estado_na_corrida)))
    by (vm_compute; discriminate).
  split; [exact H1 | split; [exact H2 |]].
  destruct (jogador_sentado_corre_de_novo estado_na_corrida 0 (MkJogador 1 false)
              H1 eq_refl eq_refl eq_refl H2) as (s' & He & _ & Hs & _).
  exists s'. split; [exact He | exact Hs].
Defined.

(** X10.  The sweep hands out chairs.  After [liberar_threads_eliminadas]
    the next [NUM_JOGADORES - 1] claims succeed whatever the semaphore held,
    an empty one included: none of the three players is marked eliminated,
    each prints that it sat down, and the semaphore is back at the count it
    had before the sweep. *)
Theorem varredura_entrega_cadeiras w j1 j2 j3 :
  sem_ok (cadeira_sem w) ->
  let r1 := tentar_ocupar_cadeira j1 (liberar_threads_eliminadas w) in
  let r2 := tentar_ocupar_cadeira j2 (snd r1) in
  let r3 := tentar_ocupar_cadeira j3 (snd r2) in
  fst r1 = j1 /\ fst r2 = j2 /\ fst r3 = j3 /\
  cadeira_sem (snd r3) = cadeira_sem w /\
  saida (snd r3) = saida w ++ [MsgSentou (id j1); MsgSentou (id j2); MsgSentou (id j3)] /\
  jogadores_restantes (jogo (snd r3)) = jogadores_restantes (jogo w) /\
  jogo_ativo (snd r3) = jogo_ativo w.
Proof.
  unfold sem_ok. intros Hs.
  destruct w as [g [p] mp ja out]. simpl in Hs.
  unfold liberar_threads_eliminadas, tentar_ocupar_cadeira, try_acquire, release,
    NUM_JOGADORES. simpl.
  assert (H1 : (0 <? p + (4 - 1)) = true) by (apply Z.ltb_lt; lia).
  rewrite H1. simpl.
  assert (H2 : (0 <? p + (4 - 1) - 1) = true) by (apply Z.ltb_lt; lia).
  rewrite H2. simpl.
  assert (H3 : (0 <? p + (4 - 1) - 1 - 1) = true) by (apply Z.ltb_lt; lia).
  rewrite H3. simpl.
  repeat split.
  - f_equal. lia.
  - rewrite <- !app_assoc. reflexivity.
Qed.

Lemma varredura_entrega_cadeiras_witness :
  let w := com_sem (MkSem 0) mundo_inicial in
  sem_ok (cadeira_sem w) /\
  eliminado (fst (tentar_ocupar_cadeira (MkJogador 1 false) w)) = true /\
  fst (tentar_ocupar_cadeira (MkJogador 1 false) (liberar_threads_eliminadas w)) =
    MkJogador 1 false.
Proof.
  set (w := com_sem (MkSem 0) mundo_inicial).
  assert (H : sem_ok (cadeira_sem w)) by (vm_compute; discriminate).
  split; [exact H | split; [reflexivity |]].
  exact (proj1 (varredura_entrega_cadeiras w (MkJogador 1 false) (MkJogador 2 false)
                  (MkJogador 3 false) H)).
Defined.

(** ** A round of the coordinator *)

Lemma iniciar_rodada_efeito w :
  jogadores_restantes (jogo (iniciar_rodada w)) = jogadores_restantes (jogo w) /\
  jogo_ativo (iniciar_rodada w) = jogo_ativo w /\
  (sem_ok (cadeira_sem w) ->
   cadeira_sem (iniciar_rodada w) = MkSem (cadeiras (jogo (iniciar_rodada w)))).
Proof.
  split; [apply iniciar_rodada_restantes | split].
  - unfold iniciar_rodada, rodada_anuncia, rodada_musica, rodada_repoe, rodada_esgota,
      rodada_cadeiras.
    destruct (1 <? cadeiras (jogo w)); reflexivity.
  - intros Hs. rewrite iniciar_rodada_refill. apply resize_and_refill_counter, Hs.
Qed.

(** X11.  A round run by the coordinator with no player step in between
    (lines 149-162) is [iniciar_rodada], [parar_musica] and
    [liberar_threads_eliminadas] in sequence.  It brings the coordinator back
    to its loop test with [jogadores_restantes] unchanged, the music flag
    set and the semaphore holding the new chair count plus the
    [NUM_JOGADORES - 1] permits of the sweep. *)
Theorem rodada_do_coordenador w js :
  1 < jogadores_restantes (jogo w) ->
  sem_ok (cadeira_sem w) ->
  let w' := liberar_threads_eliminadas (parar_musica (iniciar_rodada w)) in
  (exists n,
     executa (replicate n TCoordenador) (MkSistema w js CLaco) =
     Some (MkSistema w' js CLaco)) /\
  jogadores_restantes (jogo w') = jogadores_restantes (jogo w) /\
  musica_parada w' = true /\
  jogo_ativo w' = jogo_ativo w /\
  cadeira_sem w' = MkSem (cadeiras (jogo w') + (NUM_JOGADORES - 1)).
Proof.
  intros Hr Hs w'. subst w'. split.
  - destruct (coordenador_iniciar_rodada w js) as [n Hn].
    exists (1 + (n + 5))%nat. rewrite !replicate_add.
    rewrite (executa_app _ _ _ (MkSistema w js CCadeiras)).
    + rewrite (executa_app _ _ _ _ Hn). reflexivity.
    + simpl. unfold getJogadoresRestantes.
      assert (E : (1 <? jogadores_restantes (jogo w)) = true) by (apply Z.ltb_lt; lia).
      rewrite E. reflexivity.
  - pose proof (iniciar_rodada_efeito w) as (Hj & Ha & Hsem).
    unfold liberar_threads_eliminadas, parar_musica, com_sem, cout, com_musica_parada, release.
    cbn [jogo cadeira_sem musica_parada jogo_ativo saida].
    rewrite Hsem by exact Hs. repeat split; assumption.
Qed.

Lemma rodada_do_coordenador_witness :
  1 < jogadores_restantes (jogo mundo_inicial) /\
  sem_ok (cadeira_sem mundo_inicial) /\
  cadeira_sem (liberar_threads_eliminadas (parar_musica (iniciar_rodada mundo_inicial))) =
    MkSem (NUM_JOGADORES + 1).
Proof.
  assert (H1 : 1 < jogadores_restantes (jogo mundo_inicial)) by (vm_compute; reflexivity).
  assert (H2 : sem_ok (cadeira_sem mundo_inicial)) by (vm_compute; discriminate).
  split; [exact H1 | split; [exact H2 |]].
  destruct (rodada_do_coordenador mundo_inicial [] H1 H2) as (_ & _ & _ & _ & Hsem).
  rewrite Hsem. reflexivity.
Defined.

Lemma preso_passo s t s' :
  passo t s = Some s' ->
  todos_jogadores_sairam s ->
  1 < jogadores_restantes (jogo (mundo s)) ->
  fora_do_laco (coordenador s) = false ->
  todos_jogadores_sairam s' /\
  jogadores_restantes (jogo (mundo s')) = jogadores_restantes (jogo (mundo s)) /\
  fora_do_laco (coordenador s') = false.
Proof.
  intros Hp Hall Hr Hc. destruct t as [|i]; simpl in Hp.
  - destruct (passo_coordenador (coordenador s) (mundo s)) as [[c' w']|] eqn:Hpc; [|discriminate].
    inversion Hp; subst s'; clear Hp. unfold todos_jogadores_sairam. simpl.
    destruct (passo_coordenador_quadro _ _ _ _ Hpc) as (_ & Hr' & _).
    split; [exact Hall | split; [exact Hr' |]].
    destruct (coordenador s); simpl in Hpc, Hc; try discriminate;
      try (inversion Hpc; subst; reflexivity).
    + unfold getJogadoresRestantes in Hpc.
      destruct (1 <? jogadores_restantes (jogo (mundo s))) eqn:E;
        [inversion Hpc; reflexivity | apply Z.ltb_ge in E; lia].
    + destruct (try_acquire (cadeira_sem (mundo s))) as [[|] sem'];
        inversion Hpc; reflexivity.
  - destruct (jogadores_objs s !! i) as [tj|] eqn:Hi; [|discriminate].
    unfold todos_jogadores_sairam in Hall.
    rewrite Forall_lookup in Hall. specialize (Hall i tj Hi).
    destruct tj as [j pc]. simpl in Hall. subst pc. discriminate.
Qed.

(** X12.  When every player has left [joga] while more than one player is
    still counted, the game cannot end: from any such state, in every
    continuation, the count stays as it is, the coordinator stays inside its
    loop and always has a next step. *)
Theorem coordenador_preso s s' :
  todos_jogadores_sairam s ->
  1 < jogadores_restantes (jogo (mundo s)) ->
  fora_do_laco (coordenador s) = false ->
  alcancavel_de s s' ->
  todos_jogadores_sairam s' /\
  jogadores_restantes (jogo (mundo s')) = jogadores_restantes (jogo (mundo s)) /\
  fora_do_laco (coordenador s') = false /\
  is_Some (passo TCoordenador s').
Proof.
  intros Hall Hr Hc Hs.
  assert (H : todos_jogadores_sairam s' /\
              jogadores_restantes (jogo (mundo s')) = jogadores_restantes (jogo (mundo s)) /\
              fora_do_laco (coordenador s') = false).
  { induction Hs as [|s1 t s2 _ IH Hp]; [auto|].
    destruct IH as (Ha & Hr1 & Hc1).
    destruct (preso_passo s1 t s2 Hp Ha) as (Ha2 & Hr2 & Hc2);
      [lia | exact Hc1 |].
    split; [exact Ha2 | split; [lia | exact Hc2]]. }
  destruct H as (Ha & Hr' & Hc'). repeat split; try assumption.
  assert (Hfim : coordenador s' <> CFim) by (intros E; rewrite E in Hc'; discriminate).
  unfold passo.
  destruct (passo_coordenador_segue (coordenador s') (mundo s') Hfim) as [[c' w'] ->].
  eexists; reflexivity.
Qed.

Lemma coordenador_preso_witness :
  todos_jogadores_sairam estado_travado /\
  1 < jogadores_restantes (jogo (mundo estado_travado)) /\
  is_Some (passo TCoordenador estado_travado).
Proof.
  assert (H1 : todos_jogadores_sairam estado_travado) by (repeat constructor).
  assert (H2 : 1 < jogadores_restantes (jogo (mundo estado_travado)))
    by (vm_compute; reflexivity).
  split; [exact H1 | split; [exact H2 |]].
  exact (proj2 (proj2 (proj2 (coordenador_preso estado_travado estado_travado
                                H1 H2 eq_refl (alc_refl estado_travado))))).
Defined.
